(** * typed-restana-app: validation adapter, route registry and OpenAPI derivation

    A shallow embedding of [src/core/typed-app.ts] and [src/core/openapi.ts].

    - JavaScript values are a tree-shaped JSON datatype extended with
      [undefined]; objects are association lists in enumeration order.
    - The zod validator and the zod-to-json-schema converter are external
      libraries: a schema is a record of the operations the code calls on it.
    - The request handler is written in a state-and-exception monad over the
      response object and the console.
    - The route registry is the list that [routes.push] grows; the OpenAPI
      [paths] object is a finite map. *)

From stdpp Require Import base option list strings gmap pretty.
From Stdlib Require Import String Ascii ZArith Lia.

Open Scope string_scope.
Open Scope list_scope.
Set Warnings "-register-all".

(** ** JavaScript values *)

Inductive Value : Type :=
| VUndefined
| VNull
| VBool (b : bool)
| VNum (n : Z)
| VStr (s : string)
| VArr (items : list Value)
| VObj (fields : list (string * Value)).

(** The value [{}]. *)
Definition empty_object : Value := VObj [].

(** Truthiness as used by [||], [&&], [!] and [if]. *)
Definition truthy (v : Value) : bool :=
  match v with
  | VUndefined | VNull => false
  | VBool b => b
  | VNum n => negb (n =? 0)%Z
  | VStr s => negb (String.eqb s "")
  | VArr _ | VObj _ => true
  end.

(** [a || b] *)
Definition js_or (a b : Value) : Value := if truthy a then a else b.

(** Property read [o[k]] on an object value; [undefined] when missing. *)
Fixpoint assoc {A : Type} (k : string) (l : list (string * A)) : option A :=
  match l with
  | [] => None
  | (k', v) :: l' => if String.eqb k k' then Some v else assoc k l'
  end.

Definition get_prop (k : string) (v : Value) : Value :=
  match v with
  | VObj fs => default VUndefined (assoc k fs)
  | _ => VUndefined
  end.

(** [k in o] *)
Definition has_prop (k : string) (v : Value) : bool :=
  match v with
  | VObj fs => bool_decide (is_Some (assoc k fs))
  | _ => false
  end.

(** An optional property of a configuration object: the key may be missing,
    or present holding [undefined], or present holding a value. *)
Inductive JsProp (A : Type) : Type :=
| Absent
| Undefined
| Defined (a : A).
Arguments Absent {A}.
Arguments Undefined {A}.
Arguments Defined {A} a.

(** ['k' in obj] *)
Definition key_in {A} (p : JsProp A) : bool :=
  match p with Absent => false | _ => true end.

(** [obj.k], with [None] standing for [undefined]. *)
Definition read {A} (p : JsProp A) : option A :=
  match p with Defined a => Some a | _ => None end.

(** [a ?? b] *)
Definition nullish {A} (a b : option A) : option A :=
  match a with Some x => Some x | None => b end.

(** Truthiness of a boolean-or-undefined. *)
Definition is_true (o : option bool) : bool := default false o.

(** ** Strings *)

(** [s.includes(sub)] *)
Fixpoint includes (s sub : string) : bool :=
  String.prefix sub s ||
  match s with
  | EmptyString => false
  | String _ s' => includes s' sub
  end.

Definition upper_char (c : ascii) : ascii :=
  let n := nat_of_ascii c in
  if (97 <=? n)%nat && (n <=? 122)%nat then ascii_of_nat (n - 32) else c.

Definition lower_char (c : ascii) : ascii :=
  let n := nat_of_ascii c in
  if (65 <=? n)%nat && (n <=? 90)%nat then ascii_of_nat (n + 32) else c.

Fixpoint map_string (f : ascii -> ascii) (s : string) : string :=
  match s with
  | EmptyString => EmptyString
  | String c s' => String (f c) (map_string f s')
  end.

(** [s.toUpperCase()] and [s.toLowerCase()] on ASCII text. *)
Definition toUpperCase : string -> string := map_string upper_char.
Definition toLowerCase : string -> string := map_string lower_char.

(** ** The schema validator interface (zod) *)

(** An element of [issue.path]: a property name or an array index. *)
Inductive PathKey : Type :=
| Key (s : string)
| Index (n : N).

Definition path_key_string (k : PathKey) : string :=
  match k with Key s => s | Index n => pretty n end.

Record ZodIssue : Type := mkIssue {
  issue_path : list PathKey;
  issue_message : string
}.

(** Result of [schema.safeParse(data)]. *)
Inductive SafeParseResult : Type :=
| ParseSuccess (data : Value)
| ParseFailure (issues : list ZodIssue).

(** The two unknown-key modes the adapter selects with [schema.strict()] and
    [schema.passthrough()]. *)
Inductive UnknownKeys : Type := strict_mode | passthrough_mode.

(** A schema, as far as this code uses one: whether it has the methods
    [strict] and [passthrough] (zod gives both to object schemas and neither
    to arrays, primitives or unions), how it parses in the selected mode, and
    what [zodToJsonSchema] makes of it ([None] when the conversion throws). *)
Record ZodSchema : Type := mkSchema {
  has_strict : bool;
  has_passthrough : bool;
  safeParse : UnknownKeys -> Value -> SafeParseResult;
  zodToJsonSchema : option Value
}.

(** ** Errors *)

Inductive Exn : Type :=
| ValidationError (message : string) (details : list Value)
| JsError (message : string)
| Thrown (v : Value).

(** [error instanceof Error] *)
Definition instanceof_Error (e : Exn) : bool :=
  match e with Thrown _ => false | _ => true end.

Definition error_message (e : Exn) : string :=
  match e with
  | ValidationError m _ => m
  | JsError m => m
  | Thrown _ => ""
  end.

(** ** The response object and the console *)

Definition Headers : Type := list (string * string).

(** One body written to the client. *)
Record Written : Type := mkWritten {
  w_body : Value;
  w_status : nat;
  w_headers : Headers
}.

Record Response : Type := mkResponse {
  statusCode : option nat;
  headersSent : bool;
  headers : Headers;
  written : list Written
}.

Inductive LogEntry : Type :=
| console_warn (msg : string) (payload : Value)
| console_error (msg : string) (payload : Value)
| console_error_exn (msg : string) (e : Exn).

Record World : Type := mkWorld {
  res : Response;
  console : list LogEntry
}.

(** A fresh response: Node's default status, nothing sent. *)
Definition fresh_response : Response :=
  {| statusCode := Some 200; headersSent := false; headers := []; written := [] |}.

Definition fresh_world : World := {| res := fresh_response; console := [] |}.

(** ** State and exceptions *)

Inductive Outcome (A : Type) : Type :=
| Return (a : A)
| Throw (e : Exn).
Arguments Return {A} a.
Arguments Throw {A} e.

Definition M (A : Type) : Type := World -> Outcome A * World.

Definition ret {A} (a : A) : M A := fun w => (Return a, w).
Definition throw {A} (e : Exn) : M A := fun w => (Throw e, w).

Definition bind {A B} (c : M A) (k : A -> M B) : M B :=
  fun w =>
    match c w with
    | (Return a, w') => k a w'
    | (Throw e, w') => (Throw e, w')
    end.

(** [try { c } catch (e) { h e }] *)
Definition try_catch {A} (c : M A) (h : Exn -> M A) : M A :=
  fun w =>
    match c w with
    | (Return a, w') => (Return a, w')
    | (Throw e, w') => h e w'
    end.

Notation "x <- c ;; k" := (bind c (fun x => k))
  (at level 100, c at next level, right associativity).
Notation "c ;;; k" := (bind c (fun _ => k))
  (at level 100, right associativity).

Definition get_res : M Response := fun w => (Return (res w), w).

Definition log (e : LogEntry) : M unit :=
  fun w => (Return tt, {| res := res w; console := console w ++ [e] |}).

Definition when (b : bool) (c : M unit) : M unit := if b then c else ret tt.

(** Node accepts the status codes from 100 to 999 when the head is written. *)
Definition valid_status (code : Z) : bool := (100 <=? code)%Z && (code <=? 999)%Z.

Definition dquote : string := String (ascii_of_nat 34) EmptyString.

(** What [res.end(true)] throws: a chunk is a string or a buffer. *)
Definition invalid_chunk : Exn :=
  JsError ("The " ++ dquote ++ "chunk" ++ dquote ++
           " argument must be of type string or an instance of Buffer or Uint8Array." ++
           " Received type boolean (true)").

(** What [res.setHeader] throws once the head is written. *)
Definition headers_already_sent : Exn :=
  JsError "Cannot set headers after they are sent to the client".

(** What writing the head throws on a status code out of range. *)
Definition invalid_status (code : Z) : Exn :=
  JsError ("Invalid status code: " ++ pretty code).

(** [res.send(data, code, headers)].  restana and Node's [http] are outside
    the sources; this is what they do with the call.  The given headers are
    set first; setting one after the head is written throws.  A number
    passed as [data] is the status code, and the body is then [res.body],
    which this code never sets; a missing [data] defaults to
    [res.statusCode].  An object or an array is serialised, anything else is
    handed to [res.end] as it is.  The status is assigned and [res.end]
    called: it refuses [true] as a chunk, then writes the head, refusing a
    status out of range; a falsy chunk ends the response without a body.
    [w_body] is the value handed to [res.end], before serialisation. *)
Definition send (data : Value) (code : nat) (hs : Headers) : M unit :=
  fun w =>
    let r := res w in
    let data :=
      match data, statusCode r with
      | VUndefined, Some c => VNum (Z.of_nat c)
      | _, _ => data
      end in
    let status := match data with VNum n => n | _ => Z.of_nat code end in
    let chunk := match data with VNum _ => VUndefined | _ => data end in
    let prepared (sent : bool) (out : list Written) :=
      {| res := {| statusCode := Some (Z.to_nat status);
                   headersSent := sent;
                   headers := headers r ++ hs;
                   written := written r ++ out |};
         console := console w |} in
    if headersSent r && negb (bool_decide (hs = [])) then (Throw headers_already_sent, w)
    else
      match chunk with
      | VBool true => (Throw invalid_chunk, prepared (headersSent r) [])
      | _ =>
          if valid_status status
          then (Return tt, prepared true [mkWritten chunk (Z.to_nat status) (headers r ++ hs)])
          else (Throw (invalid_status status), prepared (headersSent r) [])
      end.

(** [res.statusCode = code] *)
Definition set_statusCode (code : nat) : M unit :=
  fun w =>
    let r := res w in
    (Return tt,
     {| res := {| statusCode := Some code; headersSent := headersSent r;
                  headers := headers r; written := written r |};
        console := console w |}).

(** [res.setHeader(name, value)] *)
Definition setHeader (name value : string) : M unit :=
  fun w =>
    let r := res w in
    (Return tt,
     {| res := {| statusCode := statusCode r; headersSent := headersSent r;
                  headers := headers r ++ [(name, value)]; written := written r |};
        console := console w |}).

(** [res.end(data)] *)
Definition end_ (data : Value) : M unit :=
  fun w =>
    let r := res w in
    (Return tt,
     {| res := {| statusCode := statusCode r; headersSent := true;
                  headers := headers r;
                  written := written r ++ [mkWritten data (default 200 (statusCode r)) (headers r)] |};
        console := console w |}).

(** ** Application configuration ([createTypedApp]) *)

(** [process.env] as far as the code reads it. *)
Record Env : Type := mkEnv { NODE_ENV : option string }.

(** [process.env.NODE_ENV === 'development'] *)
Definition is_development (env : Env) : bool :=
  match NODE_ENV env with
  | Some s => String.eqb s "development"
  | None => false
  end.

(** The [config] argument of [createTypedApp]. *)
Record TypedAppConfig : Type := mkTypedAppConfig {
  cfg_strict : JsProp bool;
  cfg_validateResponses : JsProp bool;
  cfg_logValidationErrors : JsProp bool
}.

(** The resolved [appConfig]; a field is [None] when it holds [undefined]. *)
Record AppConfig : Type := mkAppConfig {
  app_strict : option bool;
  app_validateResponses : option bool;
  app_logValidationErrors : option bool
}.

(** One field of [{ k: config.k ?? dflt, ...config }]: the spread writes the
    key again whenever [config] owns it, also when it holds [undefined]. *)
Definition defaulted (p : JsProp bool) (dflt : bool) : option bool :=
  match p with
  | Absent => Some dflt
  | Undefined => None
  | Defined b => Some b
  end.

Definition resolveAppConfig (env : Env) (config : TypedAppConfig) : AppConfig :=
  {| app_strict := defaulted (cfg_strict config) (is_development env);
     app_validateResponses := defaulted (cfg_validateResponses config) (is_development env);
     app_logValidationErrors := defaulted (cfg_logValidationErrors config) true |}.

(** ** Routes *)

Record ResponseConfig : Type := mkResponseConfig {
  resp_schema : option ZodSchema;
  resp_description : option string
}.

Record RouteSchema : Type := mkRouteSchema {
  query : option ZodSchema;
  params : option ZodSchema;
  body : option ZodSchema;
  responses : option (gmap string ResponseConfig)
}.

Record RouteMetadata : Type := mkRouteMetadata {
  summary : option string;
  description : option string;
  tags : option (list string);
  operationId : option string;
  deprecated : option bool
}.

(** The request, as far as the adapter reads it. *)
Record Request : Type := mkRequest {
  req_query : Value;
  req_params : Value;
  req_body : Value
}.

(** The argument of the business handler ([res] is the state of [M]). *)
Record Context : Type := mkContext {
  ctx_query : Value;
  ctx_params : Value;
  ctx_body : Value;
  ctx_req : Request
}.

Record RouteConfig : Type := mkRouteConfig {
  schema : option RouteSchema;
  metadata : option RouteMetadata;
  strict : JsProp bool;
  validateResponse_flag : JsProp bool;
  middlewares : option (list string);
  handler : Context -> M Value
}.

(** [config.schema?.query] and its siblings. *)
Definition schema_of (config : RouteConfig) (f : RouteSchema -> option ZodSchema) : option ZodSchema :=
  s ← schema config; f s.

Definition responses_of (config : RouteConfig) : option (gmap string ResponseConfig) :=
  s ← schema config; responses s.

(** ** The validator and the handler adapter *)

(** One entry of [ValidationError.details]. *)
Definition detail (data : Value) (issue : ZodIssue) : Value :=
  VObj [ ("path", VStr (String.concat "." (map path_key_string (issue_path issue))));
         ("message", VStr (issue_message issue));
         ("value", data) ].

Definition bool_value (o : option bool) : Value :=
  match o with Some b => VBool b | None => VUndefined end.

Section TypedApp.

Variable env : Env.
Variable appConfig : AppConfig.

(** [strict ?? appConfig.strict] *)
Definition shouldBeStrict (strict_arg : option bool) : option bool :=
  nullish strict_arg (app_strict appConfig).

(** [shouldBeStrict && 'strict' in schema ? schema.strict() : schema.passthrough()].
    [strict()] is called only on a schema that has it; [passthrough()] is
    called unguarded, and calling it on a schema without it is a [TypeError]:
    [None]. *)
Definition validationSchema (schema : ZodSchema) (strict_arg : option bool) : option UnknownKeys :=
  if is_true (shouldBeStrict strict_arg) && has_strict schema then Some strict_mode
  else if has_passthrough schema then Some passthrough_mode
  else None.

(** The [TypeError] of calling the missing method. *)
Definition passthrough_missing : Exn := JsError "schema.passthrough is not a function".

Definition validateData (data : Value) (schema : ZodSchema) (context : string)
    (strict_arg : option bool) : M Value :=
  match validationSchema schema strict_arg with
  | None => throw passthrough_missing
  | Some mode =>
      match safeParse schema mode data with
      | ParseFailure issues =>
          let details := map (detail data) issues in
          when (is_true (app_logValidationErrors appConfig))
            (log (console_warn ("🚨 Validation failed for " ++ context ++ ":")
                    (VObj [ ("data", data); ("errors", VArr details);
                            ("strict", bool_value (shouldBeStrict strict_arg)) ]))) ;;;
          throw (ValidationError ("Validation failed for " ++ context) details)
      | ParseSuccess parsed => ret parsed
      end
  end.

Definition validateResponse (data : Value) (schema : ZodSchema) (statusCode : nat)
    (strict_arg : option bool) : M Value :=
  try_catch
    (validateData data schema ("response (" ++ pretty statusCode ++ ")") strict_arg)
    (fun error =>
       when (is_true (app_logValidationErrors appConfig))
         (log (console_error
                 ("🚨 Response validation failed for status " ++ pretty statusCode ++ ":")
                 (VObj [ ("data", data);
                         ("error", match error with
                                   | Thrown v => v
                                   | _ => VStr (error_message error)
                                   end) ]))) ;;;
       if is_development env then throw error else ret data).

Definition json_headers : Headers := [("Content-Type", "application/json")].

(** The [catch (error)] block of the request handler. *)
Definition on_error (error : Exn) : M unit :=
  r <- get_res ;;
  if headersSent r then
    log (console_error_exn "Headers already sent, cannot send error response:" error)
  else
    match error with
    | ValidationError message details =>
        if includes message "response (" then
          send (VObj [ ("error", VStr "Response validation failed");
                       ("message", VStr message);
                       ("details", VArr details) ])
               500 json_headers
        else
          send (VObj [ ("error", VStr "Validation failed");
                       ("message", VStr message);
                       ("details", VArr details) ])
               400 json_headers
    | _ =>
        let generic :=
          VObj [ ("error", VStr "Internal Server Error");
                 ("message", VStr (if instanceof_Error error then error_message error
                                   else "An unexpected error occurred")) ] in
        r <- get_res ;;
        when (negb (headersSent r))
          (try_catch
             (send generic 500 json_headers)
             (fun sendError =>
                log (console_error_exn "Failed to send error response:" sendError) ;;;
                r <- get_res ;;
                when (bool_decide (statusCode r = None)) (set_statusCode 500) ;;;
                r <- get_res ;;
                when (negb (headersSent r))
                  (setHeader "Content-Type" "application/json" ;;; end_ generic)))
    end.

(** ['strict' in config ? config.strict : undefined] *)
Definition routeStrict (config : RouteConfig) : option bool :=
  if key_in (strict config) then read (strict config) else None.

(** ['validateResponse' in config ? config.validateResponse : appConfig.validateResponses] *)
Definition routeValidateResponse (config : RouteConfig) : option bool :=
  if key_in (validateResponse_flag config) then read (validateResponse_flag config)
  else app_validateResponses appConfig.

(** One input of the request: validated when its schema is configured,
    passed on otherwise. *)
Definition validated_input (config : RouteConfig) (f : RouteSchema -> option ZodSchema)
    (raw : Value) (context : string) : M Value :=
  match schema_of config f with
  | Some s => validateData (js_or raw empty_object) s context (routeStrict config)
  | None => ret (js_or raw empty_object)
  end.

(** First half of the [try] block: validate the inputs, call the handler. *)
Definition run_handler (config : RouteConfig) (req : Request) : M Value :=
  q <- validated_input config query (req_query req) "query" ;;
  p <- validated_input config params (req_params req) "params" ;;
  b <- validated_input config body (req_body req) "body" ;;
  handler config (mkContext q p b req).

(** [config.schema.responses[200]?.schema], when response validation is on. *)
Definition responseSchema (config : RouteConfig) : option ZodSchema :=
  rs ← (if is_true (routeValidateResponse config) then responses_of config else None);
  c ← rs !! "200";
  resp_schema c.

(** Second half of the [try] block: send what the handler returned. *)
Definition send_result (config : RouteConfig) (result : Value) : M unit :=
  r <- get_res ;;
  if negb (headersSent r) then
    let responseData := match result with VUndefined => empty_object | _ => result end in
    responseData <-
      match responseSchema config with
      | Some rs => validateResponse responseData rs 200 (routeStrict config)
      | None => ret responseData
      end ;;
    r <- get_res ;;
    let status := match statusCode r with Some 0 | None => 200 | Some c => c end in
    send responseData status json_headers
  else ret tt.

Definition try_block (config : RouteConfig) (req : Request) : M unit :=
  result <- run_handler config req ;;
  send_result config result.

(** The function returned by [createValidatedHandler(config)]. *)
Definition createValidatedHandler (config : RouteConfig) (req : Request) : M unit :=
  try_catch (try_block config req) on_error.

End TypedApp.

(** ** The route registry ([registerRoute], [getRoutes]) *)

(** The [path] argument: one string, or an array of strings with a first
    element. *)
Inductive PathArg : Type :=
| OnePath (p : string)
| PathArray (first : string) (others : list string).

(** [Array.isArray(path) ? path[0] : path] *)
Definition pathForDoc (path : PathArg) : string :=
  match path with
  | OnePath p => p
  | PathArray first _ => first
  end.

Record Route : Type := mkRoute {
  route_method : string;
  route_path : string;
  route_schema : option RouteSchema;
  route_metadata : option RouteMetadata
}.

(** What the underlying server was given by [restanaApp[method](path, ...)]. *)
Record Registered : Type := mkRegistered {
  reg_method : string;
  reg_path : PathArg;
  reg_middlewares : list string;
  reg_config : RouteConfig
}.

Record TypedApp : Type := mkTypedApp {
  routes : list Route;
  restanaApp : list Registered
}.

Definition emptyApp : TypedApp := {| routes := []; restanaApp := [] |}.

Definition registerRoute (method : string) (path : PathArg) (config : RouteConfig)
    (app : TypedApp) : TypedApp :=
  {| routes := routes app ++
        [ {| route_method := toUpperCase method;
             route_path := pathForDoc path;
             route_schema := schema config;
             route_metadata := metadata config |} ];
     restanaApp := restanaApp app ++
        [ mkRegistered method path (default [] (middlewares config)) config ] |}.

Definition getRoutes (app : TypedApp) : list Route := routes app.

(** A registration call, for sequences of them. *)
Record Registration : Type := mkRegistration {
  call_method : string;
  call_path : PathArg;
  call_config : RouteConfig
}.

Definition registerAll (calls : list Registration) (app : TypedApp) : TypedApp :=
  foldl (fun a c => registerRoute (call_method c) (call_path c) (call_config c) a) app calls.

(** The registration methods of the [typedApp] object. *)
Module typedApp.
Definition get := registerRoute "get".
Definition post := registerRoute "post".
Definition put := registerRoute "put".
Definition patch := registerRoute "patch".
Definition delete := registerRoute "delete".
Definition head := registerRoute "head".
Definition options := registerRoute "options".
Definition trace := registerRoute "trace".
Definition all := registerRoute "all".
End typedApp.

(** ** OpenAPI generation ([generateOpenApiSpec]) *)

Definition slash : ascii := "/"%char.
Definition colon : ascii := ":"%char.

(** [path.replace(/:([^/]+)/g, '{$1}')] as a left-to-right scan.  Outside a
    match, a colon followed by a character other than a slash opens one;
    inside, the match runs up to the next slash or the end of the text. *)
Fixpoint replace_params (in_match : bool) (s : string) : string :=
  match s with
  | EmptyString => if in_match then "}" else ""
  | String c s' =>
      if in_match then
        if Ascii.eqb c slash then String "}" (String slash (replace_params false s'))
        else String c (replace_params true s')
      else if Ascii.eqb c colon then
        match s' with
        | EmptyString => String colon EmptyString
        | String d _ =>
            if Ascii.eqb d slash then String colon (replace_params false s')
            else String "{" (replace_params true s')
        end
      else String c (replace_params false s')
  end.

Definition pathKey (path : string) : string := replace_params false path.

Definition is_alnum (c : ascii) : bool :=
  let n := nat_of_ascii c in
  ((48 <=? n)%nat && (n <=? 57)%nat) ||
  ((65 <=? n)%nat && (n <=? 90)%nat) ||
  ((97 <=? n)%nat && (n <=? 122)%nat).

(** [s.replace(/[^a-zA-Z0-9]/g, '')] *)
Fixpoint alnum_only (s : string) : string :=
  match s with
  | EmptyString => EmptyString
  | String c s' => if is_alnum c then String c (alnum_only s') else alnum_only s'
  end.

(** [o || d] on an optional string: the empty string is falsy. *)
Definition str_or (o : option string) (d : string) : string :=
  match o with
  | Some s => if String.eqb s "" then d else s
  | None => d
  end.

Record ParameterObject : Type := mkParameterObject {
  param_name : string;
  param_in : string;
  param_required : bool;
  param_schema : Value
}.

(** [{ required: true, content: { 'application/json': { schema } } }] *)
Record RequestBody : Type := mkRequestBody {
  rb_required : bool;
  rb_json_schema : Value
}.

(** [{ description, content?: { 'application/json': { schema } } }] *)
Record ResponseObject : Type := mkResponseObject {
  ro_description : string;
  ro_json_schema : option Value
}.

Record Operation : Type := mkOperation {
  op_operationId : string;
  op_summary : string;
  op_description : string;
  op_tags : list string;
  op_deprecated : option bool;
  op_requestBody : option RequestBody;
  op_parameters : option (list ParameterObject);
  op_responses : gmap string ResponseObject
}.

(** [Object.entries(v)] *)
Definition entries (v : Value) : list (string * Value) :=
  match v with
  | VObj fs => fs
  | VArr xs => imap (fun i x => (pretty i, x)) xs
  | _ => []
  end.

(** [Array.isArray(required) ? required.includes(name) : false] *)
Definition required_includes (required : Value) (name : string) : bool :=
  match required with
  | VArr xs => existsb (fun x => match x with VStr s => String.eqb s name | _ => false end) xs
  | _ => false
  end.

(** The parameter list derived from a converted schema, when the schema
    converts, is truthy and has a [properties] key. *)
Definition schema_parameters (s : ZodSchema) (mk : Value -> string -> Value -> ParameterObject)
    : option (list ParameterObject) :=
  match zodToJsonSchema s with
  | Some js =>
      if truthy js && has_prop "properties" js then
        Some (map (fun '(name, sch) => mk js name sch)
                  (entries (js_or (get_prop "properties" js) empty_object)))
      else None
  | None => None
  end.

Definition query_parameter (js : Value) (name : string) (sch : Value) : ParameterObject :=
  {| param_name := name;
     param_in := "query";
     param_required := required_includes (js_or (get_prop "required" js) (VArr [])) name;
     param_schema := sch |}.

Definition path_parameter (js : Value) (name : string) (sch : Value) : ParameterObject :=
  {| param_name := name; param_in := "path"; param_required := true; param_schema := sch |}.

(** [operation.parameters] after the query and the params blocks. *)
Definition operation_parameters (rs : RouteSchema) : option (list ParameterObject) :=
  let after_query :=
    match query rs with
    | Some q => schema_parameters q query_parameter
    | None => None
    end in
  match params rs with
  | Some p =>
      match schema_parameters p path_parameter with
      | Some ps => Some (default [] after_query ++ ps)
      | None => after_query
      end
  | None => after_query
  end.

Definition response_object (statusCode : string) (config : ResponseConfig) : ResponseObject :=
  let descr := str_or (resp_description config) ("Response " ++ statusCode) in
  match resp_schema config with
  | Some s => {| ro_description := descr; ro_json_schema := zodToJsonSchema s |}
  | None => {| ro_description := descr; ro_json_schema := None |}
  end.

Definition operation_responses (rs : RouteSchema) : gmap string ResponseObject :=
  match responses rs with
  | Some declared => map_imap (fun code c => Some (response_object code c)) declared
  | None => {[ "200" := {| ro_description := "Success"; ro_json_schema := None |} ]}
  end.

Definition build_operation (route : Route) (rs : RouteSchema) (index : nat) : Operation :=
  let key := pathKey (route_path route) in
  let method := toLowerCase (route_method route) in
  let meta := route_metadata route in
  {| op_operationId :=
       str_or (m ← meta; operationId m) (method ++ alnum_only key ++ pretty index);
     op_summary := str_or (m ← meta; summary m) (toUpperCase method ++ " " ++ key);
     op_description := str_or (m ← meta; description m) "";
     op_tags := default ["Default"] (m ← meta; tags m);
     op_deprecated :=
       if is_true (m ← meta; deprecated m) then Some true else None;
     op_requestBody :=
       b ← body rs; js ← zodToJsonSchema b; Some (mkRequestBody true js);
     op_parameters := operation_parameters rs;
     op_responses := operation_responses rs |}.

(** The body of [routes.forEach((route, index) => ...)]. *)
Definition process_route (route : Route) (index : nat)
    (paths : gmap string (gmap string Operation)) : gmap string (gmap string Operation) :=
  match route_schema route with
  | None => paths
  | Some rs =>
      let key := pathKey (route_path route) in
      let method := toLowerCase (route_method route) in
      <[ key := <[ method := build_operation route rs index ]> (default ∅ (paths !! key)) ]> paths
  end.

Fixpoint process_routes (rs : list Route) (index : nat)
    (paths : gmap string (gmap string Operation)) : gmap string (gmap string Operation) :=
  match rs with
  | [] => paths
  | r :: rs' => process_routes rs' (S index) (process_route r index paths)
  end.

Record Server : Type := mkServer {
  server_url : string;
  server_description : option string
}.

Record OpenApiOptions : Type := mkOpenApiOptions {
  opt_title : option string;
  opt_description : option string;
  opt_version : option string;
  opt_servers : option (list Server)
}.

Record OpenApiSpec : Type := mkOpenApiSpec {
  openapi : string;
  info_title : string;
  info_description : string;
  info_version : string;
  servers : list Server;
  paths : gmap string (gmap string Operation);
  components_schemas : gmap string Value
}.

Definition generateOpenApiSpec (app : TypedApp) (options : OpenApiOptions) : OpenApiSpec :=
  {| openapi := "3.0.3";
     info_title := str_or (opt_title options) "TypeSafe API";
     info_description :=
       str_or (opt_description options) "Generated API documentation using typed-restana-app";
     info_version := str_or (opt_version options) "1.0.0";
     servers :=
       default [ mkServer "http://localhost:3000" (Some "Development server") ]
               (opt_servers options);
     paths := process_routes (getRoutes app) 0 ∅;
     components_schemas := ∅ |}.

(** ** A reference object schema

    Modelled from the spec: the zod library is not part of the sources.  The
    model covers flat [z.object({...})] schemas in the two modes the spec
    names: "reject unknown fields" (an input field not declared in the
    schema is an issue) and "pass through unknown fields" (unknown fields are
    retained in the output, not discarded).  An object schema has both
    methods, [strict] and [passthrough]. *)
Module ZodObject.

Inductive FieldType : Type := ZodString | ZodNumber | ZodBoolean | ZodAny.

Record Field : Type := mkField {
  field_name : string;
  field_type : FieldType;
  field_optional : bool
}.

Definition Shape : Type := list Field.

Definition type_name (v : Value) : string :=
  match v with
  | VUndefined => "undefined"
  | VNull => "null"
  | VBool _ => "boolean"
  | VNum _ => "number"
  | VStr _ => "string"
  | VArr _ => "array"
  | VObj _ => "object"
  end.

Definition expected (t : FieldType) : string :=
  match t with
  | ZodString => "string"
  | ZodNumber => "number"
  | ZodBoolean => "boolean"
  | ZodAny => "any"
  end.

Definition accepts (t : FieldType) (v : Value) : bool :=
  match t, v with
  | ZodString, VStr _ | ZodNumber, VNum _ | ZodBoolean, VBool _ | ZodAny, _ => true
  | _, _ => false
  end.

Definition declared (shape : Shape) (k : string) : bool :=
  existsb (fun f => String.eqb (field_name f) k) shape.

(** The parsed entry and the issues of one declared field. *)
Definition parse_field (fs : list (string * Value)) (f : Field)
    : list (string * Value) * list ZodIssue :=
  match default VUndefined (assoc (field_name f) fs) with
  | VUndefined =>
      if field_optional f || accepts (field_type f) VUndefined then ([], [])
      else ([], [mkIssue [Key (field_name f)] "Required"])
  | v =>
      if accepts (field_type f) v then ([(field_name f, v)], [])
      else ([], [mkIssue [Key (field_name f)]
                   ("Expected " ++ expected (field_type f) ++ ", received " ++ type_name v)])
  end.

Definition unknown_fields (shape : Shape) (fs : list (string * Value))
    : list (string * Value) :=
  List.filter (fun kv => negb (declared shape (fst kv))) fs.

Definition unrecognized (extra : list (string * Value)) : list ZodIssue :=
  match extra with
  | [] => []
  | _ => [mkIssue []
            ("Unrecognized key(s) in object: " ++
             String.concat ", " (map (fun kv => ("'" ++ fst kv ++ "'")%string) extra))]
  end.

Definition parse (shape : Shape) (mode : UnknownKeys) (data : Value) : SafeParseResult :=
  match data with
  | VObj fs =>
      let extra := unknown_fields shape fs in
      let issues :=
        flat_map (fun f => snd (parse_field fs f)) shape ++
        match mode with strict_mode => unrecognized extra | passthrough_mode => [] end in
      match issues with
      | [] =>
          ParseSuccess
            (VObj (flat_map (fun f => fst (parse_field fs f)) shape ++
                   match mode with strict_mode => [] | passthrough_mode => extra end))
      | _ => ParseFailure issues
      end
  | VUndefined => ParseFailure [mkIssue [] "Required"]
  | v => ParseFailure [mkIssue [] ("Expected object, received " ++ type_name v)]
  end.

Definition json_type (t : FieldType) : Value :=
  match t with
  | ZodAny => VObj []
  | _ => VObj [("type", VStr (expected t))]
  end.

(** A field that must be present: not optional, and of a type that does not
    accept [undefined]. *)
Definition is_required (f : Field) : bool :=
  negb (field_optional f || accepts (field_type f) VUndefined).

(** The JSON-schema form: [properties] in shape order, and [required] listing
    the fields that must be present; the key [required] is left out when no
    field must be. *)
Definition json_schema (shape : Shape) : Value :=
  VObj ([ ("type", VStr "object");
          ("properties", VObj (map (fun f => (field_name f, json_type (field_type f))) shape)) ] ++
        match List.filter is_required shape with
        | [] => []
        | required => [ ("required", VArr (map (fun f => VStr (field_name f)) required)) ]
        end ++
        [ ("additionalProperties", VBool false) ]).

Definition object (shape : Shape) : ZodSchema :=
  {| has_strict := true;
     has_passthrough := true;
     safeParse := parse shape;
     zodToJsonSchema := Some (json_schema shape) |}.

End ZodObject.

(** ** A reference array schema

    Modelled from the spec: the zod library is not part of the sources.  An
    array schema, as the README's [z.array(UserSchema)]; here
    [z.array(z.number())].  It has neither [strict] nor [passthrough] and
    knows no unknown-key mode; every item that is not a number is an issue
    under the item's index. *)
Module ZodArray.

Definition item_issues (index : nat) (item : Value) : list ZodIssue :=
  match item with
  | VNum _ => []
  | v => [mkIssue [Index (N.of_nat index)]
            ("Expected number, received " ++ ZodObject.type_name v)]
  end.

Definition parse (data : Value) : SafeParseResult :=
  match data with
  | VArr items =>
      match List.concat (imap item_issues items) with
      | [] => ParseSuccess data
      | issues => ParseFailure issues
      end
  | VUndefined => ParseFailure [mkIssue [] "Required"]
  | v => ParseFailure [mkIssue [] ("Expected array, received " ++ ZodObject.type_name v)]
  end.

Definition numbers : ZodSchema :=
  {| has_strict := false;
     has_passthrough := false;
     safeParse := fun _ => parse;
     zodToJsonSchema :=
       Some (VObj [ ("type", VStr "array"); ("items", VObj [("type", VStr "number")]) ]) |}.

End ZodArray.

(** Modelled from the spec: the behaviour of an object schema's two modes,
    which belongs to the zod library and not to the sources.  The schema has
    both methods, and for the declared field names [names]: strict mode rejects an object that has an
    undeclared field; passthrough mode decides on the declared fields alone
    and keeps every undeclared field as it is. *)
Record object_schema (names : list string) (s : ZodSchema) : Prop := {
  schema_has_strict : has_strict s = true;
  schema_has_passthrough : has_passthrough s = true;
  strict_rejects_unknown :
    forall fs k, is_Some (assoc k fs) -> k ∉ names ->
      exists issues, safeParse s strict_mode (VObj fs) = ParseFailure issues;
  passthrough_ignores_unknown :
    forall fs out,
      safeParse s passthrough_mode
        (VObj (List.filter (fun kv => bool_decide (fst kv ∈ names)) fs)) = ParseSuccess out ->
      exists out', safeParse s passthrough_mode (VObj fs) = ParseSuccess out';
  passthrough_retains_unknown :
    forall fs out k, safeParse s passthrough_mode (VObj fs) = ParseSuccess out ->
      k ∉ names -> get_prop k out = get_prop k (VObj fs)
}.

(** ** Sample routes *)

Module Samples.
Import ZodObject.

Definition development : Env := mkEnv (Some "development").
Definition production : Env := mkEnv (Some "production").

(** [createTestApp]'s defaults, with response validation switched on. *)
Definition responseValidationConfig : TypedAppConfig :=
  {| cfg_strict := Defined false;
     cfg_validateResponses := Defined true;
     cfg_logValidationErrors := Defined false |}.

Definition defaultTestConfig : TypedAppConfig :=
  {| cfg_strict := Defined false;
     cfg_validateResponses := Defined false;
     cfg_logValidationErrors := Defined false |}.

Definition strictTestConfig : TypedAppConfig :=
  {| cfg_strict := Defined true;
     cfg_validateResponses := Defined false;
     cfg_logValidationErrors := Defined false |}.

(** [z.object({ name: z.string(), email: z.string() })] *)
Definition UserShape : Shape :=
  [ mkField "name" ZodString false; mkField "email" ZodString false ].
Definition UserSchema : ZodSchema := object UserShape.

(** [z.object({ search: z.string().optional(), page: z.number() })] *)
Definition QuerySchema : ZodSchema :=
  object [ mkField "search" ZodString true; mkField "page" ZodNumber false ].

(** [z.object({ id: z.string() })] *)
Definition ParamsSchema : ZodSchema := object [ mkField "id" ZodString false ].

Definition plain_route (h : Context -> M Value) : RouteConfig :=
  {| schema := None; metadata := None; strict := Absent;
     validateResponse_flag := Absent; middlewares := None; handler := h |}.

Definition schema_route (rs : RouteSchema) (h : Context -> M Value) : RouteConfig :=
  {| schema := Some rs; metadata := None; strict := Absent;
     validateResponse_flag := Absent; middlewares := None; handler := h |}.

Definition body_only : RouteSchema :=
  {| query := None; params := None; body := Some UserSchema; responses := None |}.

(** A route that declares [responses: { 200: { schema: UserSchema } }]. *)
Definition responds_user : RouteSchema :=
  {| query := None; params := None; body := None;
     responses := Some {[ "200" := mkResponseConfig (Some UserSchema) (Some "User found") ]} |}.

Definition documented : RouteSchema :=
  {| query := Some QuerySchema; params := Some ParamsSchema; body := None;
     responses := None |}.

(** A route that takes [body: z.array(z.number())]. *)
Definition numbers_body : RouteSchema :=
  {| query := None; params := None; body := Some ZodArray.numbers; responses := None |}.

(** A route that declares [responses: { 200: { schema: z.array(z.number()) } }]. *)
Definition responds_numbers : RouteSchema :=
  {| query := None; params := None; body := None;
     responses := Some {[ "200" := mkResponseConfig (Some ZodArray.numbers) None ]} |}.

(** A route with [strict: given] in its configuration. *)
Definition with_strict (given : bool) (config : RouteConfig) : RouteConfig :=
  {| schema := schema config; metadata := metadata config; strict := Defined given;
     validateResponse_flag := validateResponse_flag config;
     middlewares := middlewares config; handler := handler config |}.

Definition no_input : Request := mkRequest VUndefined VUndefined VUndefined.

Definition content_type_json : Headers := [("Content-Type", "application/json")].

(** A fresh response after one body was sent with the JSON content type. *)
Definition answered (data : Value) (code : nat) : World :=
  {| res := {| statusCode := Some code; headersSent := true;
               headers := content_type_json;
               written := [mkWritten data code content_type_json] |};
     console := [] |}.

Definition john : Value :=
  VObj [ ("name", VStr "John"); ("email", VStr "john@example.com") ].
Definition john_extra : Value :=
  VObj [ ("name", VStr "John"); ("email", VStr "john@example.com");
         ("extraField", VStr "x") ].

(** Handlers. *)
Definition returns (v : Value) : Context -> M Value := fun _ => ret v.
Definition echo_body : Context -> M Value := fun ctx => ret (ctx_body ctx).
Definition throws (e : Exn) : Context -> M Value := fun _ => throw e.
(** [context.res.send({ message: 'Direct response' })] and no return value. *)
Definition sends_directly : Context -> M Value :=
  fun _ => send (VObj [("message", VStr "Direct response")]) 200 [] ;;; ret VUndefined.

(** Applications. *)
Definition validating_app (env : Env) : AppConfig :=
  resolveAppConfig env responseValidationConfig.
Definition lenient_app : AppConfig := resolveAppConfig development defaultTestConfig.
Definition strict_app : AppConfig := resolveAppConfig development strictTestConfig.

Definition missing_email : Value := VObj [ ("name", VStr "John") ].

Definition email_required : list ZodIssue := [ mkIssue [Key "email"] "Required" ].

Definition extra_field_unrecognized : list ZodIssue :=
  [ mkIssue [] "Unrecognized key(s) in object: 'extraField'" ].

End Samples.

(** * Properties *)

(** ** Vocabulary for the three inputs of a request *)

Inductive Input : Type := Query | Params | Body.

Definition input_schema (i : Input) : RouteSchema -> option ZodSchema :=
  match i with Query => query | Params => params | Body => body end.

Definition input_raw (i : Input) (req : Request) : Value :=
  match i with Query => req_query req | Params => req_params req | Body => req_body req end.

Definition input_context (i : Input) : string :=
  match i with Query => "query" | Params => "params" | Body => "body" end.

(** The inputs handled before [i]. *)
Definition earlier (i : Input) : list Input :=
  match i with Query => [] | Params => [Query] | Body => [Query; Params] end.

(** What is validated, or handed on, for input [i]: [req.i || {}]. *)
Definition input_data (req : Request) (i : Input) : Value :=
  js_or (input_raw i req) empty_object.

(** The strictness in force on a route: the route's own [strict] value when
    its configuration provides one, the application's otherwise. *)
Definition route_strictness (app : AppConfig) (config : RouteConfig) : option bool :=
  match strict config with
  | Defined given => Some given
  | _ => app_strict app
  end.

(** The mode a schema is run in on a route.  Strict, when the strictness in
    force is on and the schema has [strict()]; else passthrough, when the
    schema has [passthrough()]; else none: the validator is not run. *)
Definition route_mode (app : AppConfig) (config : RouteConfig) (s : ZodSchema)
    : option UnknownKeys :=
  match route_strictness app config with
  | Some true =>
      if has_strict s then Some strict_mode
      else if has_passthrough s then Some passthrough_mode else None
  | _ => if has_passthrough s then Some passthrough_mode else None
  end.

(** What the validator says of [data] when the route runs schema [s] on it;
    nothing when the schema lacks the method the route calls. *)
Definition schema_parse (app : AppConfig) (config : RouteConfig) (s : ZodSchema)
    (data : Value) : option SafeParseResult :=
  mode ← route_mode app config s; Some (safeParse s mode data).

(** The validator's verdict on input [i], if the route has a schema for it
    and runs it. *)
Definition input_parse (app : AppConfig) (config : RouteConfig) (req : Request) (i : Input)
    : option SafeParseResult :=
  s ← schema_of config (input_schema i); schema_parse app config s (input_data req i).

(** Input [i] reaches the handler as [v]: parsed to [v] by its schema, or
    handed on when the route has no schema for it. *)
Definition input_yields (app : AppConfig) (config : RouteConfig) (req : Request)
    (i : Input) (v : Value) : Prop :=
  match schema_of config (input_schema i) with
  | Some s => schema_parse app config s (input_data req i) = Some (ParseSuccess v)
  | None => v = input_data req i
  end.

(** Input [i] has a schema, which is run and reports [issues]. *)
Definition input_fails (app : AppConfig) (config : RouteConfig) (req : Request)
    (i : Input) (issues : list ZodIssue) : Prop :=
  input_parse app config req i = Some (ParseFailure issues).

(** A value that [res.send] serialises as JSON: an object or an array. *)
Definition is_json (v : Value) : bool :=
  match v with VObj _ | VArr _ => true | _ => false end.

(** [res.statusCode || 200] is a status code the server accepts. *)
Definition status_accepted (r : Response) : bool :=
  valid_status (Z.of_nat (match statusCode r with Some 0 | None => 200 | Some c => c end)).

(** The world after [validateData] has reported a failure. *)
Definition warned (app : AppConfig) (context : string) (data : Value)
    (issues : list ZodIssue) (strict_arg : option bool) (w : World) : World :=
  if is_true (app_logValidationErrors app) then
    {| res := res w;
       console := console w ++
         [ console_warn ("🚨 Validation failed for " ++ context ++ ":")
             (VObj [ ("data", data); ("errors", VArr (map (detail data) issues));
                     ("strict", bool_value (shouldBeStrict app strict_arg)) ]) ] |}
  else w.

(** The bodies of the three error responses. *)
Definition validation_failed_body (message : string) (details : list Value) : Value :=
  VObj [ ("error", VStr "Validation failed"); ("message", VStr message);
         ("details", VArr details) ].

Definition response_validation_failed_body (message : string) (details : list Value) : Value :=
  VObj [ ("error", VStr "Response validation failed"); ("message", VStr message);
         ("details", VArr details) ].

Definition internal_server_error_body (message : string) : Value :=
  VObj [ ("error", VStr "Internal Server Error"); ("message", VStr message) ].

(** [res.statusCode || 200] *)
Definition status_or_200 (r : Response) : nat :=
  match statusCode r with Some 0 | None => 200 | Some c => c end.

(** The world after [res.send(data, code, json_headers)]. *)
Definition sent (data : Value) (code : nat) (w : World) : World :=
  snd (send data code json_headers w).

(** The response data the adapter works with: [{}] for [undefined]. *)
Definition response_data (result : Value) : Value :=
  match result with VUndefined => empty_object | _ => result end.

(** The world after [validateResponse] has caught a failure of [data]. *)
Definition response_warned (app : AppConfig) (data : Value) (issues : list ZodIssue)
    (strict_arg : option bool) (w : World) : World :=
  let w1 := warned app "response (200)" data issues strict_arg w in
  if is_true (app_logValidationErrors app) then
    {| res := res w1;
       console := console w1 ++
         [ console_error "🚨 Response validation failed for status 200:"
             (VObj [ ("data", data);
                     ("error", VStr "Validation failed for response (200)") ]) ] |}
  else w1.

(** A handler that leaves the response alone or sends exactly one. *)
Definition sends_at_most_once (h : Context -> M Value) : Prop :=
  forall ctx w o w', h ctx w = (o, w') ->
    headersSent (res w) = false -> written (res w) = [] ->
    (headersSent (res w') = false /\ written (res w') = []) \/
    (headersSent (res w') = true /\ List.length (written (res w')) = 1).

(** The data that is sent once response validation has let [result]
    through: the parsed value when a schema applies, else the response data. *)
Definition response_passes (app : AppConfig) (config : RouteConfig)
    (result data : Value) : Prop :=
  match responseSchema app config with
  | Some rs => schema_parse app config rs (response_data result) = Some (ParseSuccess data)
  | None => data = response_data result
  end.

(** The response the adapter writes in world [w]. *)
Definition reply (body : Value) (code : nat) (w : World) : Written :=
  mkWritten body code (headers (res w) ++ [("Content-Type", "application/json")]).

(** The reading under which a failed response validation is a 500 in every
    environment. *)
Definition response_failure_always_500 : Prop :=
  forall env app config req w q p b result w1 declared c rs issues,
    input_yields app config req Query q ->
    input_yields app config req Params p ->
    input_yields app config req Body b ->
    handler config (mkContext q p b req) w = (Return result, w1) ->
    headersSent (res w1) = false ->
    is_true (routeValidateResponse app config) = true ->
    responses_of config = Some declared ->
    declared !! "200" = Some c ->
    resp_schema c = Some rs ->
    schema_parse app config rs (response_data result) = Some (ParseFailure issues) ->
    exists w', createValidatedHandler env app config req w = (Return tt, w') /\
      written (res w') = written (res w1) ++
        [ reply (response_validation_failed_body "Validation failed for response (200)"
                   (map (detail (response_data result)) issues)) 500 w1 ].

(** The reading under which an input without a schema reaches the handler
    as it is unless it is absent. *)
Definition as_is (raw : Value) : Value :=
  match raw with VUndefined => empty_object | _ => raw end.

Definition unvalidated_input_as_is : Prop :=
  forall env app h req w result w1,
    h (mkContext (as_is (req_query req)) (as_is (req_params req)) (as_is (req_body req)) req) w
      = (Return result, w1) ->
    headersSent (res w1) = false ->
    exists w',
      createValidatedHandler env app
        {| schema := None; metadata := None; strict := Absent;
           validateResponse_flag := Absent; middlewares := None; handler := h |} req w
        = (Return tt, w') /\
      written (res w') = written (res w1) ++
        [ reply (response_data result) (status_or_200 (res w1)) w1 ].

(** ** Vocabulary for the registry and the generated document *)

(** The registry entry a registration call leaves. *)
Definition entry_of (method : string) (path : PathArg) (config : RouteConfig) : Route :=
  {| route_method := toUpperCase method;
     route_path := pathForDoc path;
     route_schema := schema config;
     route_metadata := metadata config |}.

Fixpoint no_char (c : ascii) (s : string) : bool :=
  match s with
  | EmptyString => true
  | String d s' => negb (Ascii.eqb d c) && no_char c s'
  end.

(** A path segment: free of slashes, and either free of colons or a colon
    followed by a name that is not empty. *)
Definition is_segment (segment : string) : bool :=
  no_char slash segment &&
  (no_char colon segment ||
   match segment with
   | String c (String _ _) => Ascii.eqb c colon
   | _ => false
   end).

(** The brace convention: [:id] becomes [{id}], other segments stay. *)
Definition brace (segment : string) : string :=
  match segment with
  | String c (String _ _ as name) =>
      if Ascii.eqb c colon then "{" ++ name ++ "}" else segment
  | _ => segment
  end.

(** The [required] entry of a converted schema, as the generator reads it. *)
Definition required_of (js : Value) : Value := js_or (get_prop "required" js) (VArr []).

(** The top-level properties of a converted schema. *)
Definition properties_of (js : Value) : list (string * Value) :=
  entries (js_or (get_prop "properties" js) empty_object).

(** What follows a segment in a path: nothing, or a slash. *)
Definition segment_end (rest : string) : Prop :=
  rest = "" \/ exists r, rest = String slash r.

(** Every operation in [paths] was built from a route of [all] that has a
    schema, and sits under that route's path key and method. *)
Definition documented_from (all : list Route)
    (paths : gmap string (gmap string Operation)) : Prop :=
  forall key ops, paths !! key = Some ops ->
    (exists index route rs,
       all !! index = Some route /\ route_schema route = Some rs /\
       key = pathKey (route_path route)) /\
    (forall method op, ops !! method = Some op ->
       exists index route rs,
         all !! index = Some route /\ route_schema route = Some rs /\
         key = pathKey (route_path route) /\
         method = toLowerCase (route_method route) /\
         op = build_operation route rs index).

(** ** Vocabulary for further properties *)

(** The route [config] with another business handler. *)
Definition with_handler (config : RouteConfig) (h : Context -> M Value) : RouteConfig :=
  {| schema := schema config; metadata := metadata config; strict := strict config;
     validateResponse_flag := validateResponse_flag config;
     middlewares := middlewares config; handler := h |}.

(** The warning [validateData] prints for a failure. *)
Definition validation_warning (app : AppConfig) (context : string) (data : Value)
    (issues : list ZodIssue) (strict_arg : option bool) : LogEntry :=
  console_warn ("🚨 Validation failed for " ++ context ++ ":")
    (VObj [ ("data", data); ("errors", VArr (map (detail data) issues));
            ("strict", bool_value (shouldBeStrict app strict_arg)) ]).

(** The error [validateResponse] prints for a failure under status 200. *)
Definition response_validation_error (data : Value) : LogEntry :=
  console_error "🚨 Response validation failed for status 200:"
    (VObj [ ("data", data); ("error", VStr "Validation failed for response (200)") ]).

(** The error [validateResponse] prints when the schema could not be run. *)
Definition response_type_error (data : Value) : LogEntry :=
  console_error "🚨 Response validation failed for status 200:"
    (VObj [ ("data", data); ("error", VStr "schema.passthrough is not a function") ]).

(** The world after [validateResponse] has caught that exception. *)
Definition response_unrun (app : AppConfig) (data : Value) (w : World) : World :=
  if is_true (app_logValidationErrors app) then
    {| res := res w; console := console w ++ [response_type_error data] |}
  else w.

(** [paths[key][method]] *)
Definition operation_at (paths : gmap string (gmap string Operation))
    (key method : string) : option Operation :=
  ops ← paths !! key; ops !! method.

(** The key and the method under which a route is documented. *)
Definition route_key (route : Route) : string := pathKey (route_path route).
Definition route_method_key (route : Route) : string := toLowerCase (route_method route).

(** The configuration [createTestApp(config)] hands to [createTypedApp]:
    [{ strict: false, validateResponses: false, logValidationErrors: false,
    ...config }]. *)
Definition test_default (p : JsProp bool) : JsProp bool :=
  match p with Absent => Defined false | _ => p end.

Definition createTestApp_config (config : TypedAppConfig) : TypedAppConfig :=
  {| cfg_strict := test_default (cfg_strict config);
     cfg_validateResponses := test_default (cfg_validateResponses config);
     cfg_logValidationErrors := test_default (cfg_logValidationErrors config) |}.

(** No colon of [s] starts a path parameter: each one is followed by a slash
    or ends the text. *)
Fixpoint no_param (s : string) : bool :=
  match s with
  | EmptyString => true
  | String c s' =>
      (if Ascii.eqb c colon
       then match s' with EmptyString => true | String d _ => Ascii.eqb d slash end
       else true) && no_param s'
  end.

(** The registry entry that documents what the server was given. *)
Definition doc_entry (reg : Registered) : Route :=
  {| route_method := toUpperCase (reg_method reg);
     route_path := pathForDoc (reg_path reg);
     route_schema := schema (reg_config reg);
     route_metadata := metadata (reg_config reg) |}.

(** What the server is given by a registration call. *)
Definition server_entry (c : Registration) : Registered :=
  mkRegistered (call_method c) (call_path c)
    (default [] (middlewares (call_config c))) (call_config c).

(** A route is documented under [key] and [method]. *)
Definition documents (route : Route) (key method : string) : Prop :=
  is_Some (route_schema route) /\ route_key route = key /\ route_method_key route = method.

(** ** The generation script ([scripts/generate-typed-openapi.ts])

    The script has its own two generators of the [paths] object.  As for
    [generateOpenApiSpec] above, what they print on the console is left out;
    a result [None] stands for an exception leaving the function. *)

Module Script.

(** [delete o[k]] *)
Definition delete_key (k : string) (fs : list (string * Value)) : list (string * Value) :=
  List.filter (fun kv => negb (String.eqb (fst kv) k)) fs.

(** [typeof v === 'object'] *)
Definition typeof_object (v : Value) : bool :=
  match v with VNull | VArr _ | VObj _ => true | _ => false end.

Definition conversion_failed : Value :=
  VObj [ ("type", VStr "object");
         ("description", VStr "Schema conversion failed - please check the source schema") ].

Definition zodToOpenApi (schema : option ZodSchema) : Value :=
  match schema with
  | None => VUndefined
  | Some s =>
      match zodToJsonSchema s with
      | Some jsonSchema =>
          if truthy jsonSchema && typeof_object jsonSchema
          then VObj (delete_key "$schema" (entries jsonSchema))
          else jsonSchema
      | None => conversion_failed
      end
  end.

(** [Object.entries(v)], strings included. *)
Definition object_entries (v : Value) : list (string * Value) :=
  match v with
  | VStr text => imap (fun i c => (pretty i, VStr (String c EmptyString)))
                      (list_ascii_of_string text)
  | _ => entries v
  end.

(** [v.includes(name)]: on an array, on a string, and on anything else not
    a function. *)
Definition method_includes (v : Value) (name : string) : option bool :=
  match v with
  | VArr _ => Some (required_includes v name)
  | VStr text => Some (includes text name)
  | _ => None
  end.

(** [k in v]: a [TypeError] on a primitive. *)
Definition in_operator (k : string) (v : Value) : option bool :=
  match v with
  | VObj _ | VArr _ => Some (has_prop k v)
  | _ => None
  end.

(** [v === text] *)
Definition is_text (v : Value) (text : string) : bool :=
  match v with VStr t => String.eqb t text | _ => false end.

(** *** [generateTypedRoutePaths] *)

Record TypedParameter : Type := mkTypedParameter {
  tp_name : string;
  tp_in : string;
  tp_required : bool;
  tp_schema : Value;
  tp_description : Value
}.

Record TypedOperation : Type := mkTypedOperation {
  to_summary : string;
  to_description : option string;
  to_operationId : option string;
  to_tags : list string;
  to_parameters : list TypedParameter;
  to_requestBody : option RequestBody;
  to_responses : gmap string ResponseObject
}.

(** [querySchema.required?.includes(paramName) || false] *)
Definition optional_required (required : Value) (name : string) : option bool :=
  match required with
  | VUndefined | VNull => Some false
  | _ => method_includes required name
  end.

(** The parameters pushed for one of [query] and [params]. *)
Definition typed_parameters (schema : option ZodSchema)
    (mk : Value -> string -> Value -> option TypedParameter) : option (list TypedParameter) :=
  match schema with
  | Some s =>
      let converted := zodToOpenApi (Some s) in
      if truthy converted && is_text (get_prop "type" converted) "object"
         && truthy (get_prop "properties" converted)
      then mapM (fun '(name, sch) => mk converted name sch)
                (object_entries (get_prop "properties" converted))
      else Some []
  | None => Some []
  end.

Definition typed_query_parameter (converted : Value) (name : string) (sch : Value)
    : option TypedParameter :=
  required ← optional_required (get_prop "required" converted) name;
  Some (mkTypedParameter name "query" required sch (get_prop "description" sch)).

Definition typed_path_parameter (converted : Value) (name : string) (sch : Value)
    : option TypedParameter :=
  Some (mkTypedParameter name "path" true sch (get_prop "description" sch)).

Definition typed_response (statusCode : string) (config : ResponseConfig) : ResponseObject :=
  let responseSchema := zodToOpenApi (resp_schema config) in
  {| ro_description := str_or (resp_description config) ("Response " ++ statusCode);
     ro_json_schema := if truthy responseSchema then Some responseSchema else None |}.

Definition typed_responses (rs : option RouteSchema) : gmap string ResponseObject :=
  let declared :=
    match s ← rs; responses s with
    | Some declared => map_imap (fun code c => Some (typed_response code c)) declared
    | None => ∅
    end in
  if bool_decide (declared = ∅)
  then {[ "200" := {| ro_description := "Success"; ro_json_schema := None |} ]}
  else declared.

Definition typed_operation (route : Route) : option TypedOperation :=
  let key := pathKey (route_path route) in
  let method := toLowerCase (route_method route) in
  let meta := route_metadata route in
  let rs := route_schema route in
  qs ← typed_parameters (s ← rs; query s) typed_query_parameter;
  ps ← typed_parameters (s ← rs; params s) typed_path_parameter;
  Some {| to_summary := str_or (m ← meta; summary m) (toUpperCase method ++ " " ++ key);
          to_description := m ← meta; description m;
          to_operationId := m ← meta; operationId m;
          to_tags := default [] (m ← meta; tags m);
          to_parameters := qs ++ ps;
          to_requestBody :=
            (b ← (s ← rs; body s);
             let bodySchema := zodToOpenApi (Some b) in
             if truthy bodySchema then Some (mkRequestBody true bodySchema) else None);
          to_responses := typed_responses rs |}.

Fixpoint generateTypedRoutePaths (typedRoutes : list Route)
    (paths : gmap string (gmap string TypedOperation))
    : option (gmap string (gmap string TypedOperation)) :=
  match typedRoutes with
  | [] => Some paths
  | route :: rest =>
      operation ← typed_operation route;
      let key := pathKey (route_path route) in
      let method := toLowerCase (route_method route) in
      generateTypedRoutePaths rest
        (<[ key := <[ method := operation ]> (default ∅ (paths !! key)) ]> paths)
  end.

(** *** [generateTypedRoutePathsFromRoutes] *)

Record RoutesOperation : Type := mkRoutesOperation {
  fr_summary : string;
  fr_description : option string;
  fr_tags : option (list string);
  fr_parameters : list ParameterObject;
  fr_requestBody : option RequestBody;
  fr_responses : gmap string ResponseObject
}.

(** [((querySchema as any).required || []).includes(name)] *)
Definition defaulted_required (required : Value) (name : string) : option bool :=
  method_includes (js_or required (VArr [])) name.

(** The parameters pushed for one of [query] and [params]; the conversion
    is not guarded here. *)
Definition routes_parameters (schema : option ZodSchema)
    (mk : Value -> string -> Value -> option ParameterObject) : option (list ParameterObject) :=
  match schema with
  | Some s =>
      converted ← zodToJsonSchema s;
      if truthy converted then
        match in_operator "properties" converted with
        | Some true =>
            mapM (fun '(name, sch) => mk converted name sch)
                 (object_entries (js_or (get_prop "properties" converted) empty_object))
        | Some false => Some []
        | None => None
        end
      else Some []
  | None => Some []
  end.

Definition routes_query_parameter (converted : Value) (name : string) (sch : Value)
    : option ParameterObject :=
  required ← defaulted_required (get_prop "required" converted) name;
  Some (mkParameterObject name "query" required sch).

Definition routes_path_parameter (converted : Value) (name : string) (sch : Value)
    : option ParameterObject :=
  Some (mkParameterObject name "path" true sch).

Definition routes_response (statusCode : string) (config : ResponseConfig)
    : option ResponseObject :=
  let descr := str_or (resp_description config) ("Response " ++ statusCode) in
  match resp_schema config with
  | Some s => responseSchema ← zodToJsonSchema s;
              Some {| ro_description := descr; ro_json_schema := Some responseSchema |}
  | None => Some {| ro_description := descr; ro_json_schema := None |}
  end.

Definition default_responses : gmap string ResponseObject :=
  {[ "200" := {| ro_description := "Success";
                 ro_json_schema := Some (VObj [("type", VStr "object")]) |} ]}.

Definition routes_responses (rs : option RouteSchema) : option (gmap string ResponseObject) :=
  match s ← rs; responses s with
  | Some declared =>
      let converted := map_imap (fun code c => Some (routes_response code c)) declared in
      if bool_decide (map_Forall (fun _ r => is_Some r) converted)
      then Some (omap id converted)
      else None
  | None => Some default_responses
  end.

Definition routes_operation (route : Route) : option RoutesOperation :=
  let meta := route_metadata route in
  let rs := route_schema route in
  qs ← routes_parameters (s ← rs; query s) routes_query_parameter;
  ps ← routes_parameters (s ← rs; params s) routes_path_parameter;
  requestBody ←
    match s ← rs; body s with
    | Some b => bodySchema ← zodToJsonSchema b; Some (Some (mkRequestBody true bodySchema))
    | None => Some None
    end;
  declared ← routes_responses rs;
  Some {| fr_summary :=
            str_or (m ← meta; summary m) (route_method route ++ " " ++ route_path route);
          fr_description := m ← meta; description m;
          fr_tags := m ← meta; tags m;
          fr_parameters := qs ++ ps;
          fr_requestBody := requestBody;
          fr_responses := declared |}.

Fixpoint generateTypedRoutePathsFromRoutes (routes : list Route)
    (paths : gmap string (gmap string RoutesOperation))
    : option (gmap string (gmap string RoutesOperation)) :=
  match routes with
  | [] => Some paths
  | route :: rest =>
      operation ← routes_operation route;
      let key := pathKey (route_path route) in
      let method := toLowerCase (route_method route) in
      generateTypedRoutePathsFromRoutes rest
        (<[ key := <[ method := operation ]> (default ∅ (paths !! key)) ]> paths)
  end.

(** [paths[key][method]] in either result. *)
Definition entry_at {A} (paths : gmap string (gmap string A)) (key method : string)
    : option A :=
  ops ← paths !! key; ops !! method.

End Script.

(** ** More sample routes *)

Module MoreSamples.
Import ZodObject Samples.

(** Strict validation and response validation both on, logging off. *)
Definition strict_validating_app : AppConfig :=
  resolveAppConfig development
    {| cfg_strict := Defined true; cfg_validateResponses := Defined true;
       cfg_logValidationErrors := Defined false |}.

(** Response validation and logging on, outside development. *)
Definition logging_app : AppConfig :=
  resolveAppConfig production
    {| cfg_strict := Defined false; cfg_validateResponses := Defined true;
       cfg_logValidationErrors := Defined true |}.

(** A schema whose conversion to JSON schema throws. *)
Definition unconvertible : ZodSchema :=
  {| has_strict := true; has_passthrough := true; safeParse := parse UserShape;
     zodToJsonSchema := None |}.

Definition unconvertible_query : RouteSchema :=
  {| query := Some unconvertible; params := None; body := None; responses := None |}.

Definition users_by_id (rs : RouteSchema) : Route :=
  mkRoute "GET" "/users/:id" (Some rs) None.

(** Two registrations of [GET /users/:id]. *)
Definition registered_twice : TypedApp :=
  typedApp.get (OnePath "/users/:id") (schema_route documented (returns empty_object))
    (typedApp.get (OnePath "/users/:id") (schema_route body_only (returns empty_object))
       emptyApp).

End MoreSamples.

(** A schema that converts to an object whose [properties], when present,
    is an object and whose [required], when present, is an array. *)
Definition converts_plainly (s : ZodSchema) : Prop :=
  exists fields,
    zodToJsonSchema s = Some (VObj fields) /\
    match assoc "properties" fields with Some (VObj _) | None => True | Some _ => False end /\
    match assoc "required" fields with Some (VArr _) | None => True | Some _ => False end.

(** ** Basic facts about strings *)

Lemma append_cons (c : ascii) (s t : string) :
  (String c s ++ t)%string = String c (s ++ t)%string.
Proof. reflexivity. Qed.

Lemma append_empty_r (s : string) : (s ++ "")%string = s.
Proof. induction s as [|c s IH]; [done|]. by rewrite append_cons, IH. Qed.

Lemma append_assoc (a b c : string) : ((a ++ b) ++ c = a ++ (b ++ c))%string.
Proof. induction a as [|x a IH]; [done|]. by rewrite !append_cons, IH. Qed.

Lemma prefix_spec (sub s : string) :
  String.prefix sub s = true <-> exists post, s = (sub ++ post)%string.
Proof.
  revert s. induction sub as [|a sub IH]; intros s.
  - split; [intros _; by exists s|]. intros _. by destruct s.
  - destruct s as [|c s]; simpl.
    + split; [done|]. intros [post Hpost]. by rewrite append_cons in Hpost.
    + destruct (ascii_dec a c) as [->|Hne].
      * rewrite IH. split; intros [post Hpost]; exists post.
        -- by rewrite append_cons, <- Hpost.
        -- rewrite append_cons in Hpost. by injection Hpost.
      * split; [done|]. intros [post Hpost]. rewrite append_cons in Hpost.
        injection Hpost as Hc _. by destruct Hne.
Qed.

Lemma includes_unfold (s sub : string) :
  includes s sub =
    String.prefix sub s ||
    match s with EmptyString => false | String _ s' => includes s' sub end.
Proof. by destruct s. Qed.

Lemma includes_spec (s sub : string) :
  includes s sub = true <-> exists pre post, s = (pre ++ sub ++ post)%string.
Proof.
  split.
  - induction s as [|c s IH]; rewrite includes_unfold, orb_true_iff.
    + intros [Hp|]; [|done]. apply prefix_spec in Hp as [post Hpost].
      exists "", post. exact Hpost.
    + intros [Hp|Hin].
      * apply prefix_spec in Hp as [post Hpost]. exists "", post. exact Hpost.
      * destruct (IH Hin) as (pre & post & ->). by exists (String c pre), post.
  - intros (pre & post & ->). induction pre as [|c pre IH].
    + rewrite includes_unfold, orb_true_iff. left.
      apply prefix_spec. by exists post.
    + rewrite append_cons, includes_unfold, IH. apply orb_true_r.
Qed.

Lemma includes_false_spec (s sub : string) :
  includes s sub = false <-> ~ exists pre post, s = (pre ++ sub ++ post)%string.
Proof.
  rewrite <- includes_spec. by destruct (includes s sub).
Qed.

(** ** Basic facts about the validator *)

Section ValidatorFacts.

Variable app : AppConfig.

Lemma warned_res context data issues st w :
  res (warned app context data issues st w) = res w.
Proof. unfold warned. by destruct (is_true _). Qed.

(** The strictness a route hands to the validator is the one in force. *)
Lemma shouldBeStrict_route config :
  shouldBeStrict app (routeStrict config) = route_strictness app config.
Proof. unfold shouldBeStrict, routeStrict, route_strictness. by destruct (strict config). Qed.

(** The schema the validator builds for a route is the route's mode. *)
Lemma validationSchema_route config s :
  validationSchema app s (routeStrict config) = route_mode app config s.
Proof.
  unfold validationSchema, route_mode. rewrite shouldBeStrict_route.
  by destruct (route_strictness app config) as [[]|], (has_strict s).
Qed.

Lemma route_mode_strict config s :
  is_true (route_strictness app config) = true ->
  has_strict s = true ->
  route_mode app config s = Some strict_mode.
Proof.
  unfold route_mode. intros Hon ->.
  by destruct (route_strictness app config) as [[]|].
Qed.

Lemma route_mode_passthrough config s :
  is_true (route_strictness app config) = false ->
  has_passthrough s = true ->
  route_mode app config s = Some passthrough_mode.
Proof.
  unfold route_mode. intros Hoff ->.
  by destruct (route_strictness app config) as [[]|].
Qed.

(** The schemas a route cannot run: those without [passthrough()], unless
    the route is strict and the schema has [strict()]. *)
Lemma route_mode_none config s :
  route_mode app config s = None <->
  has_passthrough s = false /\
  (is_true (route_strictness app config) = false \/ has_strict s = false).
Proof.
  unfold route_mode.
  destruct (route_strictness app config) as [[]|], (has_strict s), (has_passthrough s);
    simpl; split; try done; try (intros [? [?|?]]; done); intros _; split; auto.
Qed.

Lemma validateData_success data schema context st mode parsed w :
  validationSchema app schema st = Some mode ->
  safeParse schema mode data = ParseSuccess parsed ->
  validateData app data schema context st w = (Return parsed, w).
Proof. intros Hm H. unfold validateData. by rewrite Hm, H. Qed.

Lemma validateData_failure data schema context st mode issues w :
  validationSchema app schema st = Some mode ->
  safeParse schema mode data = ParseFailure issues ->
  validateData app data schema context st w =
    (Throw (ValidationError ("Validation failed for " ++ context) (map (detail data) issues)),
     warned app context data issues st w).
Proof.
  intros Hm H. unfold validateData, warned. rewrite Hm, H.
  unfold bind, when. by destruct (is_true _).
Qed.

(** A schema without the method that is called: the call throws before
    anything is validated. *)
Lemma validateData_unrun data schema context st w :
  validationSchema app schema st = None ->
  validateData app data schema context st w = (Throw passthrough_missing, w).
Proof. intros Hm. unfold validateData. by rewrite Hm. Qed.

(** [validateData] on a route, by what the validator says. *)
Lemma validateData_route config data s context w :
  validateData app data s context (routeStrict config) w =
    match schema_parse app config s data with
    | Some (ParseSuccess parsed) => (Return parsed, w)
    | Some (ParseFailure issues) =>
        (Throw (ValidationError ("Validation failed for " ++ context) (map (detail data) issues)),
         warned app context data issues (routeStrict config) w)
    | None => (Throw passthrough_missing, w)
    end.
Proof.
  unfold schema_parse. rewrite <- validationSchema_route.
  destruct (validationSchema app s (routeStrict config)) as [mode|] eqn:Hm; simpl.
  - destruct (safeParse s mode data) as [parsed|issues] eqn:Hp.
    + by apply (validateData_success _ _ _ _ mode).
    + by apply (validateData_failure _ _ _ _ mode).
  - by apply validateData_unrun.
Qed.

(** [validateData] leaves the response alone. *)
Lemma validateData_res data schema context st w o w' :
  validateData app data schema context st w = (o, w') -> res w' = res w.
Proof.
  unfold validateData.
  destruct (validationSchema app schema st) as [mode|]; [|by intros [= _ <-]].
  destruct (safeParse schema mode data) as [parsed|issues]; [by intros [= _ <-]|].
  unfold bind, when. destruct (is_true _); by intros [= _ <-].
Qed.

(** Input [i] reaches the handler as [v] exactly when its validation
    returns [v], and then the world is as before. *)
Lemma input_yields_validated config req i v w :
  input_yields app config req i v <->
  validated_input app config (input_schema i) (input_raw i req) (input_context i) w
    = (Return v, w).
Proof.
  unfold input_yields, validated_input, input_data.
  destruct (schema_of config (input_schema i)) as [s|]; simpl.
  - rewrite validateData_route.
    destruct (schema_parse app config s _) as [[parsed|issues]|];
      split; intros H; try done; by injection H as ->.
  - unfold ret. split; [by intros ->|by intros [= ->]].
Qed.

Lemma validated_input_yields config req i v w :
  input_yields app config req i v ->
  validated_input app config (input_schema i) (input_raw i req) (input_context i) w
    = (Return v, w).
Proof. apply input_yields_validated. Qed.

Lemma validated_input_fails config req i issues w :
  input_fails app config req i issues ->
  validated_input app config (input_schema i) (input_raw i req) (input_context i) w
    = (Throw (ValidationError ("Validation failed for " ++ input_context i)
                (map (detail (input_data req i)) issues)),
       warned app (input_context i) (input_data req i) issues (routeStrict config) w).
Proof.
  unfold input_fails, input_parse, validated_input, input_data.
  destruct (schema_of config (input_schema i)) as [s|]; simpl; [|done].
  intros H. by rewrite validateData_route, H.
Qed.

(** An input whose schema lacks the method the route calls. *)
Lemma validated_input_unrun config req i s w :
  schema_of config (input_schema i) = Some s ->
  route_mode app config s = None ->
  validated_input app config (input_schema i) (input_raw i req) (input_context i) w
    = (Throw passthrough_missing, w).
Proof.
  intros Hs Hm. unfold validated_input. rewrite Hs.
  rewrite validateData_route. unfold schema_parse. by rewrite Hm.
Qed.

(** When all three inputs come through, the handler is called on them. *)
Lemma run_handler_inputs_ok config req q p b w :
  input_yields app config req Query q ->
  input_yields app config req Params p ->
  input_yields app config req Body b ->
  run_handler app config req w = handler config (mkContext q p b req) w.
Proof.
  intros Hq Hp Hb. unfold run_handler, bind.
  pose proof (validated_input_yields config req Query q w Hq) as Eq.
  pose proof (validated_input_yields config req Params p w Hp) as Ep.
  pose proof (validated_input_yields config req Body b w Hb) as Eb.
  simpl in Eq, Ep, Eb. by rewrite Eq, Ep, Eb.
Qed.

(** An input that throws, the earlier ones having come through, ends the
    [try] block before the handler is called. *)
Lemma run_handler_input_throws config req i e w' w :
  (forall j, j ∈ earlier i -> exists v, input_yields app config req j v) ->
  validated_input app config (input_schema i) (input_raw i req) (input_context i) w
    = (Throw e, w') ->
  run_handler app config req w = (Throw e, w').
Proof.
  intros Hearlier Ef. unfold run_handler, bind.
  destruct i; simpl in Hearlier, Ef.
  - by rewrite Ef.
  - destruct (Hearlier Query) as [q Hq]; [set_solver|].
    pose proof (validated_input_yields config req Query q w Hq) as Eq.
    simpl in Eq. by rewrite Eq, Ef.
  - destruct (Hearlier Query) as [q Hq]; [set_solver|].
    destruct (Hearlier Params) as [p Hp]; [set_solver|].
    pose proof (validated_input_yields config req Query q w Hq) as Eq.
    pose proof (validated_input_yields config req Params p w Hp) as Ep.
    simpl in Eq, Ep. by rewrite Eq, Ep, Ef.
Qed.

(** The first input that fails, in the order query, params, body, ends
    the [try] block: the handler is not called. *)
Lemma run_handler_input_fails config req i issues w :
  (forall j, j ∈ earlier i -> exists v, input_yields app config req j v) ->
  input_fails app config req i issues ->
  run_handler app config req w =
    (Throw (ValidationError ("Validation failed for " ++ input_context i)
              (map (detail (input_data req i)) issues)),
     warned app (input_context i) (input_data req i) issues (routeStrict config) w).
Proof.
  intros Hearlier Hfail. apply (run_handler_input_throws _ _ i); [done|].
  by apply validated_input_fails.
Qed.

End ValidatorFacts.

(** ** Sending *)

(** An object or an array, sent with an accepted status while the headers
    are unsent, is written as one body. *)
Lemma send_json data code w :
  headersSent (res w) = false ->
  is_json data = true ->
  valid_status (Z.of_nat code) = true ->
  send data code json_headers w = (Return tt, sent data code w).
Proof.
  intros H Hj Hv. unfold sent, send. rewrite H. simpl.
  destruct data; try discriminate Hj; simpl; by rewrite Hv.
Qed.

Lemma sent_json data code w :
  headersSent (res w) = false ->
  is_json data = true ->
  valid_status (Z.of_nat code) = true ->
  written (res (sent data code w)) = written (res w) ++ [reply data code w] /\
  statusCode (res (sent data code w)) = Some code /\
  headersSent (res (sent data code w)) = true /\
  console (sent data code w) = console w.
Proof.
  intros H Hj Hv. unfold sent, send, reply. rewrite H. simpl.
  destruct data; try discriminate Hj; simpl; rewrite Hv; simpl;
    by rewrite Nat2Z.id.
Qed.

Lemma console_sent data code w :
  headersSent (res w) = false ->
  is_json data = true ->
  valid_status (Z.of_nat code) = true ->
  console (sent data code w) = console w.
Proof. intros H Hj Hv. by destruct (sent_json data code w H Hj Hv) as (_ & _ & _ & ->). Qed.

Lemma status_sent data code w :
  headersSent (res w) = false ->
  is_json data = true ->
  valid_status (Z.of_nat code) = true ->
  statusCode (res (sent data code w)) = Some code.
Proof. intros H Hj Hv. by destruct (sent_json data code w H Hj Hv) as (_ & -> & _). Qed.

Lemma written_sent data code w :
  headersSent (res w) = false ->
  is_json data = true ->
  valid_status (Z.of_nat code) = true ->
  written (res (sent data code w)) =
    written (res w) ++ [mkWritten data code (headers (res w) ++ json_headers)].
Proof. intros H Hj Hv. by destruct (sent_json data code w H Hj Hv) as [-> _]. Qed.

(** With the headers unsent, [send] either writes one body, or throws having
    written nothing and leaving the headers unsent. *)
Lemma send_unsent data code hs w :
  headersSent (res w) = false ->
  (exists w' x, send data code hs w = (Return tt, w') /\
                written (res w') = written (res w) ++ [x] /\
                console w' = console w) \/
  (exists e w', send data code hs w = (Throw e, w') /\
                written (res w') = written (res w) /\
                headersSent (res w') = false /\
                console w' = console w).
Proof.
  intros H. unfold send. rewrite H. simpl.
  set (data' := match data, statusCode (res w) with
                | VUndefined, Some c => VNum (Z.of_nat c)
                | _, _ => data
                end).
  destruct (valid_status (match data' with VNum n => n | _ => Z.of_nat code end)) eqn:Hv;
    destruct (match data' with VNum _ => VUndefined | _ => data' end) as [| |[]| | | |];
    first [ left; eexists _, _; by repeat split
          | right; eexists _, _; repeat split; simpl; by rewrite ?app_nil_r ].
Qed.

(** ** The [catch] block *)

Lemma on_error_headers_sent error w :
  headersSent (res w) = true ->
  on_error error w =
    (Return tt,
     {| res := res w;
        console := console w ++
          [console_error_exn "Headers already sent, cannot send error response:" error] |}).
Proof. intros H. unfold on_error, bind, get_res. simpl. by rewrite H. Qed.

Lemma on_error_validation message details w :
  headersSent (res w) = false ->
  on_error (ValidationError message details) w =
    (Return tt,
     if includes message "response (" then
       sent (response_validation_failed_body message details) 500 w
     else
       sent (validation_failed_body message details) 400 w).
Proof.
  intros H. unfold on_error, bind, get_res. simpl. rewrite H.
  destruct (includes message "response ("); by apply send_json.
Qed.

Lemma on_error_other error w :
  headersSent (res w) = false ->
  (forall m d, error <> ValidationError m d) ->
  on_error error w =
    (Return tt,
     sent (internal_server_error_body
             (if instanceof_Error error then error_message error
              else "An unexpected error occurred")) 500 w).
Proof.
  intros H Hne. unfold on_error, bind, get_res. simpl. rewrite H.
  destruct error as [m d| |]; [by destruct (Hne m d)| |];
    simpl; rewrite H; simpl; unfold try_catch;
    by rewrite (send_json _ 500 w H).
Qed.

Lemma on_error_passthrough_missing w :
  headersSent (res w) = false ->
  on_error passthrough_missing w =
    (Return tt,
     sent (internal_server_error_body "schema.passthrough is not a function") 500 w).
Proof. intros H. by rewrite (on_error_other passthrough_missing w H). Qed.

(** The [catch] block never throws. *)
Lemma on_error_returns error w : exists w', on_error error w = (Return tt, w').
Proof.
  destruct (headersSent (res w)) eqn:H.
  - rewrite on_error_headers_sent; eauto.
  - destruct error as [m d|m|v].
    + rewrite on_error_validation; eauto.
    + rewrite on_error_other; [eauto|done|done].
    + rewrite on_error_other; [eauto|done|done].
Qed.

(** With the headers unsent, the [catch] block writes exactly one body. *)
Lemma on_error_unsent error w :
  headersSent (res w) = false ->
  exists w' x, on_error error w = (Return tt, w') /\
               written (res w') = written (res w) ++ [x].
Proof.
  intros H. destruct error as [m d|m|v].
  - rewrite (on_error_validation m d w H).
    destruct (includes m "response ("); eexists _, _; (split; [done|by apply written_sent]).
  - rewrite on_error_other; [|done|done].
    eexists _, _; (split; [done|by apply written_sent]).
  - rewrite on_error_other; [|done|done].
    eexists _, _; (split; [done|by apply written_sent]).
Qed.

(** With the headers unsent, the [catch] block logs nothing. *)
Lemma on_error_unsent_console error w :
  headersSent (res w) = false ->
  exists w', on_error error w = (Return tt, w') /\ console w' = console w.
Proof.
  intros H. destruct error as [m d|m|v].
  - rewrite (on_error_validation m d w H).
    destruct (includes m "response ("); eexists; (split; [done|by apply console_sent]).
  - rewrite on_error_other; [|done|done]. eexists; (split; [done|by apply console_sent]).
  - rewrite on_error_other; [|done|done]. eexists; (split; [done|by apply console_sent]).
Qed.

(** ** The [try] block after the handler has returned *)

Lemma pretty_200 : pretty 200 = "200".
Proof. by vm_compute. Qed.

Section SendResult.

Variable env : Env.
Variable app : AppConfig.

Lemma response_warned_res data issues st w :
  res (response_warned app data issues st w) = res w.
Proof.
  unfold response_warned. destruct (is_true _); simpl; apply warned_res.
Qed.

Lemma response_unrun_res data w : res (response_unrun app data w) = res w.
Proof. unfold response_unrun. by destruct (is_true _). Qed.

(** [validateResponse] on a route, by what the validator says. *)
Lemma validateResponse_route config data rs w :
  validateResponse env app data rs 200 (routeStrict config) w =
    match schema_parse app config rs data with
    | Some (ParseSuccess parsed) => (Return parsed, w)
    | Some (ParseFailure issues) =>
        (if is_development env
         then Throw (ValidationError "Validation failed for response (200)"
                       (map (detail data) issues))
         else Return data,
         response_warned app data issues (routeStrict config) w)
    | None =>
        (if is_development env then Throw passthrough_missing else Return data,
         response_unrun app data w)
    end.
Proof.
  unfold validateResponse, try_catch. rewrite validateData_route, pretty_200.
  destruct (schema_parse app config rs data) as [[parsed|issues]|]; [done| |].
  - unfold response_warned, bind, when. simpl.
    destruct (is_true (app_logValidationErrors app)); simpl;
      by destruct (is_development env).
  - unfold response_unrun, bind, when. simpl.
    destruct (is_true (app_logValidationErrors app)); simpl;
      by destruct (is_development env).
Qed.

(** [validateResponse] leaves the response alone. *)
Lemma validateResponse_res data rs code st w o w' :
  validateResponse env app data rs code st w = (o, w') -> res w' = res w.
Proof.
  unfold validateResponse, try_catch.
  destruct (validateData app data rs _ st w) as [[parsed|e] w1] eqn:Hv;
    apply validateData_res in Hv.
  - by intros [= _ <-].
  - unfold bind, when.
    destruct (is_true (app_logValidationErrors app)), (is_development env);
      simpl; by intros [= _ <-].
Qed.

Lemma send_result_headers_sent config result w :
  headersSent (res w) = true ->
  send_result env app config result w = (Return tt, w).
Proof. intros H. unfold send_result, bind, get_res. simpl. by rewrite H. Qed.

(** With the headers unsent: what is sent once response validation is over. *)
Lemma send_result_unchecked config result w :
  headersSent (res w) = false ->
  responseSchema app config = None ->
  send_result env app config result w =
    send (response_data result) (status_or_200 (res w)) json_headers w.
Proof.
  intros H Hs. unfold send_result, bind, get_res. simpl. by rewrite H, Hs.
Qed.

Lemma send_result_checked config result rs w :
  headersSent (res w) = false ->
  responseSchema app config = Some rs ->
  send_result env app config result w =
    match schema_parse app config rs (response_data result) with
    | Some (ParseSuccess parsed) => send parsed (status_or_200 (res w)) json_headers w
    | Some (ParseFailure issues) =>
        let w' := response_warned app (response_data result) issues (routeStrict config) w in
        if is_development env
        then (Throw (ValidationError "Validation failed for response (200)"
                       (map (detail (response_data result)) issues)), w')
        else send (response_data result) (status_or_200 (res w)) json_headers w'
    | None =>
        let w' := response_unrun app (response_data result) w in
        if is_development env then (Throw passthrough_missing, w')
        else send (response_data result) (status_or_200 (res w)) json_headers w'
    end.
Proof.
  intros H Hs. unfold send_result, bind, get_res. simpl. rewrite H, Hs. simpl.
  fold (response_data result). rewrite validateResponse_route.
  destruct (schema_parse app config rs (response_data result)) as [[parsed|issues]|];
    [done| |]; simpl; destruct (is_development env); simpl; try done.
  - unfold status_or_200. by rewrite response_warned_res.
  - unfold status_or_200. by rewrite response_unrun_res.
Qed.

(** With the headers unsent, this half either writes one body, or throws
    having written nothing and leaving the headers unsent. *)
Lemma send_result_unsent config result w :
  headersSent (res w) = false ->
  (exists w' x, send_result env app config result w = (Return tt, w') /\
                written (res w') = written (res w) ++ [x]) \/
  (exists e w', send_result env app config result w = (Throw e, w') /\
                written (res w') = written (res w) /\
                headersSent (res w') = false).
Proof.
  intros H.
  assert (forall data code w0, res w0 = res w ->
    (exists w' x, send data code json_headers w0 = (Return tt, w') /\
                  written (res w') = written (res w) ++ [x]) \/
    (exists e w', send data code json_headers w0 = (Throw e, w') /\
                  written (res w') = written (res w) /\
                  headersSent (res w') = false)) as Hsend.
  { intros data code w0 Hres.
    destruct (send_unsent data code json_headers w0) as
      [(w' & x & -> & Hw & _)|(e & w' & -> & Hw & Hh & _)]; [by rewrite Hres| |].
    - left. exists w', x. by rewrite Hw, Hres.
    - right. exists e, w'. by rewrite Hw, Hres. }
  destruct (responseSchema app config) as [rs|] eqn:Hs.
  - rewrite (send_result_checked config result rs w H Hs).
    destruct (schema_parse app config rs (response_data result)) as [[parsed|issues]|]; simpl.
    + by apply Hsend.
    + destruct (is_development env).
      * right. eexists _, _. split; [done|]. by rewrite response_warned_res.
      * apply Hsend, response_warned_res.
    + destruct (is_development env).
      * right. eexists _, _. split; [done|]. by rewrite response_unrun_res.
      * apply Hsend, response_unrun_res.
  - rewrite (send_result_unchecked config result w H Hs). by apply Hsend.
Qed.

End SendResult.

(** Input validation leaves the response untouched; so the first half of
    the [try] block either runs the handler in the initial world or throws
    before the handler, with the response as it was. *)
Lemma validated_input_cases app config f raw context w :
  (exists v, validated_input app config f raw context w = (Return v, w)) \/
  (exists e w', validated_input app config f raw context w = (Throw e, w')
                /\ res w' = res w).
Proof.
  unfold validated_input. destruct (schema_of config f) as [s|]; [|left; by eexists].
  rewrite validateData_route.
  destruct (schema_parse app config s (js_or raw empty_object)) as [[parsed|issues]|].
  - left. by eexists.
  - right. eexists _, _. split; [done|apply warned_res].
  - right. by eexists _, _.
Qed.

Lemma run_handler_cases app config req w :
  (exists ctx, run_handler app config req w = handler config ctx w) \/
  (exists e w', run_handler app config req w = (Throw e, w') /\ res w' = res w).
Proof.
  unfold run_handler, bind.
  destruct (validated_input_cases app config query (req_query req) "query" w)
    as [[q ->]|(e & w' & -> & Hres)]; [|right; by eexists _, _].
  destruct (validated_input_cases app config params (req_params req) "params" w)
    as [[p' ->]|(e & w' & -> & Hres)]; [|right; by eexists _, _].
  destruct (validated_input_cases app config body (req_body req) "body" w)
    as [[b ->]|(e & w' & -> & Hres)]; [|right; by eexists _, _].
  left. by eexists.
Qed.

(** ** The request handler *)

Section Adapter.

Variable env : Env.
Variable app : AppConfig.

Lemma responseSchema_declared config declared c rs :
  is_true (routeValidateResponse app config) = true ->
  responses_of config = Some declared ->
  declared !! "200" = Some c ->
  resp_schema c = Some rs ->
  responseSchema app config = Some rs.
Proof.
  intros Hv Hr Hc Hs. unfold responseSchema. rewrite Hv, Hr. simpl.
  rewrite Hc. simpl. exact Hs.
Qed.

(** An exception of the [try] block reaches the [catch] block. *)
Lemma caught config req w e w1 :
  try_block env app config req w = (Throw e, w1) ->
  createValidatedHandler env app config req w = on_error e w1.
Proof. intros H. unfold createValidatedHandler, try_catch. by rewrite H. Qed.

Lemma completed config req w w1 :
  try_block env app config req w = (Return tt, w1) ->
  createValidatedHandler env app config req w = (Return tt, w1).
Proof. intros H. unfold createValidatedHandler, try_catch. by rewrite H. Qed.

Lemma try_block_run config req w o1 w1 :
  run_handler app config req w = (o1, w1) ->
  try_block env app config req w =
    match o1 with
    | Return result => send_result env app config result w1
    | Throw e => (Throw e, w1)
    end.
Proof. intros H. unfold try_block, bind. rewrite H. by destruct o1. Qed.

(** The handler adapter always completes. *)
Lemma createValidatedHandler_returns config req w :
  exists w', createValidatedHandler env app config req w = (Return tt, w').
Proof.
  destruct (try_block env app config req w) as [[[]|e] w1] eqn:Ht.
  - rewrite (completed _ _ _ _ Ht). eauto.
  - rewrite (caught _ _ _ _ _ Ht). apply on_error_returns.
Qed.

(** A response that its schema, run on it, rejects: the failure is logged,
    nothing else is; development answers 500, any other environment sends
    the data it was given. *)
Lemma failed_response_run config req w result w1 rs issues :
  run_handler app config req w = (Return result, w1) ->
  headersSent (res w1) = false ->
  responseSchema app config = Some rs ->
  schema_parse app config rs (response_data result) = Some (ParseFailure issues) ->
  let logged := response_warned app (response_data result) issues (routeStrict config) w1 in
  exists w',
    createValidatedHandler env app config req w = (Return tt, w') /\
    console w' = console logged /\
    (is_development env = true ->
     w' = sent (response_validation_failed_body "Validation failed for response (200)"
                  (map (detail (response_data result)) issues)) 500 logged) /\
    (is_development env = false ->
     is_json (response_data result) = true ->
     status_accepted (res w1) = true ->
     w' = sent (response_data result) (status_or_200 (res w1)) logged).
Proof.
  intros Hrun Hunsent Hrs Hfail logged.
  pose proof (try_block_run config req w _ _ Hrun) as Htry. simpl in Htry.
  rewrite (send_result_checked env app config result rs w1 Hunsent Hrs), Hfail in Htry.
  simpl in Htry. fold logged in Htry.
  assert (res logged = res w1) as Hres by apply response_warned_res.
  assert (headersSent (res logged) = false) as Hunsent2 by (by rewrite Hres).
  destruct (is_development env) eqn:Hdev.
  - rewrite (caught config req w _ _ Htry).
    rewrite (on_error_validation _ _ logged Hunsent2).
    assert (includes "Validation failed for response (200)" "response (" = true) as ->
      by (by vm_compute).
    eexists. split; [reflexivity|]. split; [by apply console_sent|].
    split; [done|by intros [=]].
  - destruct (send_unsent (response_data result) (status_or_200 (res w1)) json_headers logged
                Hunsent2) as [(w3 & x & Hsend & _ & Hco)|(e & w3 & Hsend & _ & Hh3 & Hco)];
      rewrite Hsend in Htry.
    + rewrite (completed config req w _ Htry).
      exists w3. split; [done|]. split; [exact Hco|]. split; [by intros [=]|].
      intros _ Hjson Hstatus.
      rewrite (send_json (response_data result) (status_or_200 (res w1)) logged
                 Hunsent2 Hjson Hstatus) in Hsend.
      by injection Hsend.
    + rewrite (caught config req w _ _ Htry).
      destruct (on_error_unsent_console e w3 Hh3) as (w4 & -> & Hco4).
      exists w4. split; [done|]. split; [by rewrite Hco4|]. split; [by intros [=]|].
      intros _ Hjson Hstatus.
      rewrite (send_json (response_data result) (status_or_200 (res w1)) logged
                 Hunsent2 Hjson Hstatus) in Hsend.
      discriminate Hsend.
Qed.

(** A response whose schema the route cannot run: the exception of the
    missing method is logged as a failed response validation and nothing
    else is; development answers 500, any other environment sends the data
    it was given. *)
Lemma unrun_response_run config req w result w1 rs :
  run_handler app config req w = (Return result, w1) ->
  headersSent (res w1) = false ->
  responseSchema app config = Some rs ->
  route_mode app config rs = None ->
  let logged := response_unrun app (response_data result) w1 in
  exists w',
    createValidatedHandler env app config req w = (Return tt, w') /\
    console w' = console logged /\
    (is_development env = true ->
     w' = sent (internal_server_error_body "schema.passthrough is not a function")
            500 logged) /\
    (is_development env = false ->
     is_json (response_data result) = true ->
     status_accepted (res w1) = true ->
     w' = sent (response_data result) (status_or_200 (res w1)) logged).
Proof.
  intros Hrun Hunsent Hrs Hnone logged.
  pose proof (try_block_run config req w _ _ Hrun) as Htry. simpl in Htry.
  rewrite (send_result_checked env app config result rs w1 Hunsent Hrs) in Htry.
  unfold schema_parse in Htry. rewrite Hnone in Htry. simpl in Htry. fold logged in Htry.
  assert (res logged = res w1) as Hres by apply response_unrun_res.
  assert (headersSent (res logged) = false) as Hunsent2 by (by rewrite Hres).
  destruct (is_development env) eqn:Hdev.
  - rewrite (caught config req w _ _ Htry).
    rewrite (on_error_passthrough_missing logged Hunsent2).
    eexists. split; [reflexivity|]. split; [by apply console_sent|].
    split; [done|by intros [=]].
  - destruct (send_unsent (response_data result) (status_or_200 (res w1)) json_headers logged
                Hunsent2) as [(w3 & x & Hsend & _ & Hco)|(e & w3 & Hsend & _ & Hh3 & Hco)];
      rewrite Hsend in Htry.
    + rewrite (completed config req w _ Htry).
      exists w3. split; [done|]. split; [exact Hco|]. split; [by intros [=]|].
      intros _ Hjson Hstatus.
      rewrite (send_json (response_data result) (status_or_200 (res w1)) logged
                 Hunsent2 Hjson Hstatus) in Hsend.
      by injection Hsend.
    + rewrite (caught config req w _ _ Htry).
      destruct (on_error_unsent_console e w3 Hh3) as (w4 & -> & Hco4).
      exists w4. split; [done|]. split; [by rewrite Hco4|]. split; [by intros [=]|].
      intros _ Hjson Hstatus.
      rewrite (send_json (response_data result) (status_or_200 (res w1)) logged
                 Hunsent2 Hjson Hstatus) in Hsend.
      discriminate Hsend.
Qed.

End Adapter.

(** ** Claims about the request handler *)

(** C3, the defect.  [validateData] calls [schema.passthrough()] on every
    schema it does not run strictly, also on a schema that has no such
    method (an array, a primitive, a union).  On a route that configures
    such a schema for an input, the inputs before it having passed, every
    request is answered with HTTP 500 and the body
    [{error: "Internal Server Error", message}] holding the message of the
    [TypeError], whether or not its payload fits the schema: the validator is
    not run, the handler is not called, nothing is logged.  So a payload
    that fails this schema is not answered with HTTP 400. *)
Theorem unrunnable_input_schema_is_500
    (env : Env) (app : AppConfig) (config : RouteConfig) (req : Request) (w : World)
    (i : Input) (s : ZodSchema) :
  headersSent (res w) = false ->
  (forall j, j ∈ earlier i -> exists v, input_yields app config req j v) ->
  schema_of config (input_schema i) = Some s ->
  has_passthrough s = false ->
  is_true (route_strictness app config) = false \/ has_strict s = false ->
  forall h, exists w',
    createValidatedHandler env app (with_handler config h) req w = (Return tt, w') /\
    written (res w') = written (res w) ++
      [ reply (VObj [ ("error", VStr "Internal Server Error");
                      ("message", VStr "schema.passthrough is not a function") ])
              500 w ] /\
    statusCode (res w') = Some 500 /\
    console w' = console w.
Proof.
  intros Hunsent Hearlier Hs Hpass Hmode h.
  assert (route_mode app config s = None) as Hnone by (by apply route_mode_none).
  pose proof (validated_input_unrun app (with_handler config h) req i s w Hs Hnone) as Hin.
  pose proof (run_handler_input_throws app (with_handler config h) req i _ _ w
                Hearlier Hin) as Hrun.
  pose proof (try_block_run env app (with_handler config h) req w _ _ Hrun) as Htry.
  simpl in Htry. rewrite (caught env app _ req w _ _ Htry).
  rewrite (on_error_passthrough_missing w Hunsent).
  eexists. split; [reflexivity|].
  by destruct (sent_json (internal_server_error_body "schema.passthrough is not a function")
                 500 w Hunsent) as (-> & -> & _ & ->).
Qed.

(** C6.  An exception of the business handler that is not a
    [ValidationError], caught with the headers unsent, is answered with HTTP
    500 and the body [{error: "Internal Server Error", message}], where
    [message] is the exception's message when it is an [Error] and a generic
    text otherwise.  The handler is the one the adapter calls: on the inputs
    as their validation returned them. *)
Theorem handler_exception_is_500
    (env : Env) (app : AppConfig) (config : RouteConfig) (req : Request) (w : World)
    (q p b : Value) (e : Exn) (w1 : World) :
  validated_input app config query (req_query req) "query" w = (Return q, w) ->
  validated_input app config params (req_params req) "params" w = (Return p, w) ->
  validated_input app config body (req_body req) "body" w = (Return b, w) ->
  handler config (mkContext q p b req) w = (Throw e, w1) ->
  (forall m d, e <> ValidationError m d) ->
  headersSent (res w1) = false ->
  exists w',
    createValidatedHandler env app config req w = (Return tt, w') /\
    written (res w') = written (res w1) ++
      [ reply
          (VObj [ ("error", VStr "Internal Server Error");
                  ("message", VStr (match e with
                                    | Thrown _ => "An unexpected error occurred"
                                    | _ => error_message e
                                    end)) ])
          500 w1 ] /\
    statusCode (res w') = Some 500.
Proof.
  intros Hq Hp Hb Hh Hne Hunsent.
  assert (run_handler app config req w = (Throw e, w1)) as Hrun.
  { unfold run_handler, bind. by rewrite Hq, Hp, Hb. }
  pose proof (try_block_run env app config req w _ _ Hrun) as Htry. simpl in Htry.
  rewrite (caught env app config req w _ _ Htry).
  rewrite (on_error_other e w1 Hunsent Hne).
  eexists. split; [reflexivity|].
  destruct (sent_json (internal_server_error_body
                         (if instanceof_Error e then error_message e
                          else "An unexpected error occurred")) 500 w1 Hunsent)
    as (Hw & Hs & _); [done|done|].
  rewrite Hw, Hs. split; [|reflexivity]. by destruct e.
Qed.

(** C10.  With the headers unsent, a caught [ValidationError] is answered as
    a response-validation failure (500, "Response validation failed")
    exactly when the text "response (" occurs in its message, and as an
    input-validation failure (400, "Validation failed") exactly when it does
    not; so a [ValidationError] thrown by the business handler whose message
    lacks that text is answered with 400. *)
Theorem validation_error_classified_by_message
    (env : Env) (app : AppConfig) (config : RouteConfig) (req : Request) (w : World)
    (m : string) (d : list Value) (w1 : World) :
  headersSent (res w1) = false ->
  (try_block env app config req w = (Throw (ValidationError m d), w1) ->
   exists w',
     createValidatedHandler env app config req w = (Return tt, w') /\
     ((exists pre post, m = (pre ++ "response (" ++ post)%string) ->
      written (res w') = written (res w1) ++
        [ reply (VObj [ ("error", VStr "Response validation failed");
                        ("message", VStr m); ("details", VArr d) ]) 500 w1 ]) /\
     ((~ exists pre post, m = (pre ++ "response (" ++ post)%string) ->
      written (res w') = written (res w1) ++
        [ reply (VObj [ ("error", VStr "Validation failed");
                        ("message", VStr m); ("details", VArr d) ]) 400 w1 ]) /\
     (statusCode (res w') = Some 500 <->
      exists pre post, m = (pre ++ "response (" ++ post)%string) /\
     (statusCode (res w') = Some 400 <->
      ~ exists pre post, m = (pre ++ "response (" ++ post)%string)) /\
  (forall q p b,
     validated_input app config query (req_query req) "query" w = (Return q, w) ->
     validated_input app config params (req_params req) "params" w = (Return p, w) ->
     validated_input app config body (req_body req) "body" w = (Return b, w) ->
     handler config (mkContext q p b req) w = (Throw (ValidationError m d), w1) ->
     (~ exists pre post, m = (pre ++ "response (" ++ post)%string) ->
     exists w',
       createValidatedHandler env app config req w = (Return tt, w') /\
       written (res w') = written (res w1) ++
         [ reply (VObj [ ("error", VStr "Validation failed");
                         ("message", VStr m); ("details", VArr d) ]) 400 w1 ] /\
       statusCode (res w') = Some 400).
Proof.
  intros Hunsent.
  assert (forall w0, try_block env app config req w0 = (Throw (ValidationError m d), w1) ->
     exists w',
       createValidatedHandler env app config req w0 = (Return tt, w') /\
       written (res w') = written (res w1) ++
         [ if includes m "response ("
           then reply (response_validation_failed_body m d) 500 w1
           else reply (validation_failed_body m d) 400 w1 ] /\
       statusCode (res w') = Some (if includes m "response (" then 500 else 400)) as Hgen.
  { intros w0 Htry. rewrite (caught env app config req w0 _ _ Htry).
    rewrite (on_error_validation m d w1 Hunsent).
    eexists. split; [reflexivity|].
    destruct (includes m "response (").
    - by destruct (sent_json (response_validation_failed_body m d) 500 w1 Hunsent)
        as (-> & -> & _).
    - by destruct (sent_json (validation_failed_body m d) 400 w1 Hunsent)
        as (-> & -> & _). }
  split.
  - intros Htry. destruct (Hgen w Htry) as (w' & -> & Hw & Hs).
    exists w'. split; [done|]. rewrite Hs, Hw.
    rewrite <- (includes_spec m "response (").
    destruct (includes m "response ("); repeat split; try done; try congruence.
    all: intros Hno; by destruct Hno.
  - intros q p b Hq Hp Hb Hh Hno.
    assert (run_handler app config req w = (Throw (ValidationError m d), w1)) as Hrun.
    { unfold run_handler, bind. by rewrite Hq, Hp, Hb. }
    pose proof (try_block_run env app config req w _ _ Hrun) as Htry. simpl in Htry.
    destruct (Hgen w Htry) as (w' & -> & Hw & Hs).
    apply includes_false_spec in Hno. rewrite Hno in Hw, Hs.
    exists w'. by repeat split.
Qed.

(** C1, amended.  When response validation is on for the route, a schema is
    declared under [responses[200]], the handler has returned with the
    headers unsent, and that schema is run on the response data and reports
    issues: the failure is logged when logging is on, as a warning of the
    validator and an error of the response check; then in the development
    environment the adapter answers HTTP 500 with the body
    [{error: "Response validation failed", message, details}], and in any
    other environment it sends the handler's data, unvalidated, with the
    status code of the response object (data that is an object or an array,
    under a status code the server accepts). *)
Theorem response_validation_failure_by_environment
    (env : Env) (app : AppConfig) (config : RouteConfig) (req : Request) (w : World)
    (q p b result : Value) (w1 : World)
    (declared : gmap string ResponseConfig) (c : ResponseConfig) (rs : ZodSchema)
    (issues : list ZodIssue) :
  validated_input app config query (req_query req) "query" w = (Return q, w) ->
  validated_input app config params (req_params req) "params" w = (Return p, w) ->
  validated_input app config body (req_body req) "body" w = (Return b, w) ->
  handler config (mkContext q p b req) w = (Return result, w1) ->
  headersSent (res w1) = false ->
  is_true (routeValidateResponse app config) = true ->
  responses_of config = Some declared ->
  declared !! "200" = Some c ->
  resp_schema c = Some rs ->
  schema_parse app config rs (response_data result) = Some (ParseFailure issues) ->
  exists w',
    createValidatedHandler env app config req w = (Return tt, w') /\
    console w' = console w1 ++
      (if is_true (app_logValidationErrors app)
       then [ console_warn "🚨 Validation failed for response (200):"
                (VObj [ ("data", response_data result);
                        ("errors", VArr (map (detail (response_data result)) issues));
                        ("strict", bool_value (route_strictness app config)) ]);
              console_error "🚨 Response validation failed for status 200:"
                (VObj [ ("data", response_data result);
                        ("error", VStr "Validation failed for response (200)") ]) ]
       else []) /\
    (is_development env = true ->
     written (res w') = written (res w1) ++
       [ reply (VObj [ ("error", VStr "Response validation failed");
                       ("message", VStr "Validation failed for response (200)");
                       ("details", VArr (map (detail (response_data result)) issues)) ])
               500 w1 ] /\
     statusCode (res w') = Some 500) /\
    (is_development env = false ->
     is_json (response_data result) = true ->
     status_accepted (res w1) = true ->
     written (res w') = written (res w1) ++
       [ reply (response_data result) (status_or_200 (res w1)) w1 ] /\
     statusCode (res w') = Some (status_or_200 (res w1))).
Proof.
  intros Hq Hp Hb Hh Hunsent Hv Hr Hc Hs Hfail.
  pose proof (responseSchema_declared app config declared c rs Hv Hr Hc Hs) as Hrs.
  assert (run_handler app config req w = (Return result, w1)) as Hrun.
  { unfold run_handler, bind. by rewrite Hq, Hp, Hb. }
  destruct (failed_response_run env app config req w result w1 rs issues
              Hrun Hunsent Hrs Hfail) as (w' & Hw' & Hconsole & Hdev & Hother).
  set (logged := response_warned app (response_data result) issues (routeStrict config) w1)
    in *.
  assert (res logged = res w1) as Hres by apply response_warned_res.
  assert (headersSent (res logged) = false) as Hunsent2 by (by rewrite Hres).
  exists w'. split; [exact Hw'|]. split; [|split].
  - rewrite Hconsole. unfold logged, response_warned, warned.
    rewrite shouldBeStrict_route.
    destruct (is_true (app_logValidationErrors app)); simpl.
    + by rewrite <- app_assoc.
    + by rewrite app_nil_r.
  - intros Hdevelopment. rewrite (Hdev Hdevelopment).
    destruct (sent_json (response_validation_failed_body
                           "Validation failed for response (200)"
                           (map (detail (response_data result)) issues)) 500 logged Hunsent2)
      as (Hw & Hst & _); [done|done|].
    rewrite Hw, Hst. unfold reply. by rewrite Hres.
  - intros Hproduction Hjson Hstatus. rewrite (Hother Hproduction Hjson Hstatus).
    destruct (sent_json (response_data result) (status_or_200 (res w1)) logged
                Hunsent2 Hjson Hstatus) as (Hw & Hst & _).
    rewrite Hw, Hst. unfold reply. by rewrite Hres.
Qed.

(** C2.  Let [w1] be the world once the inputs are validated and the handler
    has run (or one of them has thrown).  If the headers are sent in [w1]
    the adapter does not touch the response: after a normal return it does
    nothing at all, after an exception it only logs.  If they are not, it
    writes exactly one body.  Hence, for a handler that itself sends at most
    once, a fresh response ends with exactly one body written. *)
Theorem no_write_after_headers_sent
    (env : Env) (app : AppConfig) (config : RouteConfig) (req : Request)
    (w : World) (o1 : Outcome Value) (w1 : World) :
  run_handler app config req w = (o1, w1) ->
  exists w',
    createValidatedHandler env app config req w = (Return tt, w') /\
    (headersSent (res w1) = true ->
       res w' = res w1 /\
       match o1 with
       | Return _ => w' = w1
       | Throw e =>
           console w' = console w1 ++
             [console_error_exn "Headers already sent, cannot send error response:" e]
       end) /\
    (headersSent (res w1) = false ->
       exists x, written (res w') = written (res w1) ++ [x]) /\
    (sends_at_most_once (handler config) ->
       headersSent (res w) = false -> written (res w) = [] ->
       List.length (written (res w')) = 1).
Proof.
  intros Hrun.
  pose proof (try_block_run env app config req w _ _ Hrun) as Htry.
  assert (exists w',
    createValidatedHandler env app config req w = (Return tt, w') /\
    (headersSent (res w1) = true ->
       res w' = res w1 /\
       match o1 with
       | Return _ => w' = w1
       | Throw e =>
           console w' = console w1 ++
             [console_error_exn "Headers already sent, cannot send error response:" e]
       end) /\
    (headersSent (res w1) = false ->
       exists x, written (res w') = written (res w1) ++ [x])) as (w' & Hw' & Hsent & Hunsent).
  { destruct (headersSent (res w1)) eqn:Hhs.
    - destruct o1 as [result|e].
      + rewrite (send_result_headers_sent env app config result w1 Hhs) in Htry.
        exists w1. rewrite (completed env app config req w _ Htry). by repeat split.
      + rewrite (caught env app config req w _ _ Htry).
        rewrite (on_error_headers_sent e w1 Hhs).
        eexists. by repeat split.
    - destruct o1 as [result|e].
      + destruct (send_result_unsent env app config result w1 Hhs)
          as [(w2 & x & Hsr & Hwr)|(e & w2 & Hsr & Hwr & Hh2)]; rewrite Hsr in Htry.
        * exists w2. rewrite (completed env app config req w _ Htry).
          split; [done|]. split; [done|]. intros _. by exists x.
        * rewrite (caught env app config req w _ _ Htry).
          destruct (on_error_unsent e w2 Hh2) as (w3 & x & -> & Hw3).
          exists w3. split; [done|]. split; [done|]. intros _. exists x.
          by rewrite Hw3, Hwr.
      + rewrite (caught env app config req w _ _ Htry).
        destruct (on_error_unsent e w1 Hhs) as (w3 & x & -> & Hwr).
        exists w3. split; [done|]. split; [done|]. intros _. by exists x. }
  exists w'. split; [exact Hw'|]. split; [exact Hsent|]. split; [exact Hunsent|].
  intros Honce Hfresh Hnone.
  assert ((headersSent (res w1) = false /\ written (res w1) = []) \/
          (headersSent (res w1) = true /\ List.length (written (res w1)) = 1)) as Hcases.
  { destruct (run_handler_cases app config req w) as [[ctx Hctx]|(e & w2 & Hthrow & Hres)].
    - rewrite Hrun in Hctx. symmetry in Hctx. exact (Honce ctx w o1 w1 Hctx Hfresh Hnone).
    - rewrite Hrun in Hthrow. injection Hthrow as _ <-. left. by rewrite Hres. }
  destruct Hcases as [[Hhs Hw1]|[Hhs Hw1]].
  - destruct (Hunsent Hhs) as [x ->]. by rewrite Hw1.
  - destruct (Hsent Hhs) as [-> _]. exact Hw1.
Qed.

(** C5, amended.  The inputs are handled in the order query, params, body:
    the first configured schema that is run and reports issues ends the
    request before the handler runs.  An input without a configured schema is
    handed on unvalidated: as it is when it is truthy, and as an empty object
    when it is absent or otherwise falsy.  When the handler returns with the
    headers unsent and response validation lets the result through, the
    adapter writes one body, the result (an empty object for no value), with
    the status code found on the response object (200 when unset) and the
    header [Content-Type: application/json]; this for data that is an object
    or an array, and a status code the server accepts. *)
Theorem success_path
    (env : Env) (app : AppConfig) (config : RouteConfig) (req : Request) (w : World) :
  (forall i issues,
     (forall j, j ∈ earlier i -> exists v, input_yields app config req j v) ->
     input_fails app config req i issues ->
     run_handler app config req w =
       (Throw (ValidationError ("Validation failed for " ++ input_context i)
                 (map (detail (input_data req i)) issues)),
        warned app (input_context i) (input_data req i) issues (routeStrict config) w)) /\
  (forall i,
     schema_of config (input_schema i) = None ->
     validated_input app config (input_schema i) (input_raw i req) (input_context i) w
       = (Return (if truthy (input_raw i req) then input_raw i req else VObj []), w)) /\
  (forall q p b result w1 data,
     validated_input app config query (req_query req) "query" w = (Return q, w) ->
     validated_input app config params (req_params req) "params" w = (Return p, w) ->
     validated_input app config body (req_body req) "body" w = (Return b, w) ->
     handler config (mkContext q p b req) w = (Return result, w1) ->
     headersSent (res w1) = false ->
     response_passes app config result data ->
     is_json data = true ->
     status_accepted (res w1) = true ->
     (responseSchema app config = None ->
      data = match result with VUndefined => VObj [] | _ => result end) /\
     exists w',
       createValidatedHandler env app config req w = (Return tt, w') /\
       written (res w') = written (res w1) ++
         [ mkWritten data
             (match statusCode (res w1) with Some 0 | None => 200 | Some code => code end)
             (headers (res w1) ++ [("Content-Type", "application/json")]) ] /\
       console w' = console w1).
Proof.
  split; [|split].
  - intros i issues Hearlier Hfail. by apply run_handler_input_fails.
  - intros i Hnone. unfold validated_input. by rewrite Hnone.
  - intros q p b result w1 data Hq Hp Hb Hh Hunsent Hpass Hjson Hstatus.
    split.
    { intros Hnone. unfold response_passes in Hpass. by rewrite Hnone in Hpass. }
    assert (run_handler app config req w = (Return result, w1)) as Hrun.
    { unfold run_handler, bind. by rewrite Hq, Hp, Hb. }
    pose proof (try_block_run env app config req w _ _ Hrun) as Htry. simpl in Htry.
    assert (send_result env app config result w1 =
            send data (status_or_200 (res w1)) json_headers w1) as Hsr.
    { unfold response_passes in Hpass.
      destruct (responseSchema app config) as [rs|] eqn:Hrs.
      - by rewrite (send_result_checked env app config result rs w1 Hunsent Hrs), Hpass.
      - rewrite (send_result_unchecked env app config result w1 Hunsent Hrs). by subst data. }
    rewrite Hsr, (send_json data (status_or_200 (res w1)) w1 Hunsent Hjson Hstatus) in Htry.
    rewrite (completed env app config req w _ Htry).
    eexists. split; [reflexivity|].
    by destruct (sent_json data (status_or_200 (res w1)) w1 Hunsent Hjson Hstatus)
      as (-> & _ & _ & ->).
Qed.

(** ** Association lists and the reference object schema *)

Lemma assoc_filter {A} (P : string -> bool) (k : string) (fs : list (string * A)) :
  P k = true ->
  assoc k (List.filter (fun kv => P (fst kv)) fs) = assoc k fs.
Proof.
  intros HP. induction fs as [|[k' v] fs IH]; [done|]. simpl.
  destruct (String.eqb_spec k k') as [<-|Hne].
  - rewrite HP. simpl. by rewrite String.eqb_refl.
  - destruct (P k'); simpl; [|exact IH].
    destruct (String.eqb_spec k k'); [done|exact IH].
Qed.

Lemma assoc_app_skip {A} (k : string) (l1 l2 : list (string * A)) :
  (forall kv, In kv l1 -> fst kv <> k) ->
  assoc k (l1 ++ l2) = assoc k l2.
Proof.
  induction l1 as [|[k' v] l1 IH]; intros Hkeys; [done|]. simpl.
  destruct (String.eqb_spec k k') as [->|_].
  - exfalso. apply (Hkeys (k', v)); [by left|done].
  - apply IH. intros kv Hin. apply Hkeys. by right.
Qed.

Lemma assoc_some_in {A} (k : string) (fs : list (string * A)) (v : A) :
  assoc k fs = Some v -> In (k, v) fs.
Proof.
  induction fs as [|[k' v'] fs IH]; [done|]. simpl.
  destruct (String.eqb_spec k k') as [->|_].
  - intros [= ->]. by left.
  - intros H. right. by apply IH.
Qed.

Module ZodObjectFacts.
Import ZodObject.

Lemma declared_spec shape k :
  declared shape k = true <-> k ∈ map field_name shape.
Proof.
  unfold declared. rewrite existsb_exists, list_elem_of_In, in_map_iff.
  split.
  - intros (f & Hin & Heq). exists f. by apply String.eqb_eq in Heq.
  - intros (f & Heq & Hin). exists f. split; [done|]. by apply String.eqb_eq.
Qed.

Lemma declared_false shape k :
  k ∉ map field_name shape -> declared shape k = false.
Proof.
  intros Hk. destruct (declared shape k) eqn:E; [|done].
  by apply declared_spec in E.
Qed.

Lemma parse_field_keys fs f kv :
  In kv (fst (parse_field fs f)) -> fst kv = field_name f.
Proof.
  unfold parse_field.
  destruct (default VUndefined (assoc (field_name f) fs));
    repeat match goal with |- context [if ?c then _ else _] => destruct c end;
    simpl; intros H; try done; by destruct H as [<-|[]].
Qed.

Lemma parsed_keys_declared shape fs kv :
  In kv (flat_map (fun f => fst (parse_field fs f)) shape) ->
  fst kv ∈ map field_name shape.
Proof.
  rewrite in_flat_map. intros (f & Hf & Hkv).
  rewrite (parse_field_keys fs f kv Hkv).
  apply list_elem_of_In, in_map, Hf.
Qed.

(** The issues of the declared fields depend on the declared fields only. *)
Lemma field_issues_declared_only (shape : Shape) (names : list string)
    (fs : list (string * Value)) :
  (forall f, In f shape -> field_name f ∈ names) ->
  flat_map (fun f => snd (parse_field
              (List.filter (fun kv => bool_decide (fst kv ∈ names)) fs) f)) shape
    = flat_map (fun f => snd (parse_field fs f)) shape.
Proof.
  intros Hnames. induction shape as [|f shape IH]; [done|]. simpl.
  rewrite IH by (intros g Hg; apply Hnames; by right).
  assert (parse_field (List.filter (fun kv => bool_decide (fst kv ∈ names)) fs) f
          = parse_field fs f) as ->; [|done].
  unfold parse_field.
  pose proof (assoc_filter (fun k => bool_decide (k ∈ names)) (field_name f) fs) as Hf.
  simpl in Hf. rewrite Hf; [done|].
  apply bool_decide_eq_true_2, Hnames. by left.
Qed.

Lemma object_is_object_schema shape :
  object_schema (map field_name shape) (object shape).
Proof.
  split.
  - reflexivity.
  - reflexivity.
  - intros fs k [v Hv] Hk. simpl. unfold parse.
    assert (unrecognized (unknown_fields shape fs) <> []) as Hne.
    { assert (In (k, v) (unknown_fields shape fs)) as Hin.
      { apply filter_In. split; [by apply assoc_some_in|].
        simpl. by rewrite declared_false. }
      unfold unrecognized. by destruct (unknown_fields shape fs). }
    destruct (flat_map _ shape ++ unrecognized (unknown_fields shape fs)) eqn:E.
    + by apply app_eq_nil in E as [_ E].
    + by eexists.
  - intros fs out. simpl. unfold parse.
    rewrite (field_issues_declared_only shape (map field_name shape) fs)
      by (intros f Hf; apply list_elem_of_In, in_map, Hf).
    destruct (flat_map _ shape ++ []); [by eexists|done].
  - intros fs out k. simpl. unfold parse.
    destruct (flat_map _ shape ++ []); [|done].
    intros [= <-] Hk. simpl. f_equal.
    rewrite assoc_app_skip.
    + unfold unknown_fields.
      apply (assoc_filter (fun k' => negb (declared shape k'))).
      by rewrite declared_false.
    + intros kv Hin <-. apply Hk. by apply (parsed_keys_declared shape fs).
Qed.

End ZodObjectFacts.

(** ** Strictness *)

(** C4.  The strictness of a route's validation calls is the route's own
    [strict] value when its configuration provides one and the application's
    default otherwise; [validateData] itself takes the [strict] argument when
    one is given and the application's default otherwise.  For an input with
    an object schema: with strictness on, an object that has a field the
    schema does not declare is rejected with a [ValidationError]; with
    strictness off, an object whose declared fields are valid is accepted,
    and every undeclared field is found unchanged on the validated object,
    which is the object the handler receives. *)
Theorem strictness_selects_the_mode
    (app : AppConfig) (config : RouteConfig) (names : list string) (s : ZodSchema)
    (req : Request) (i : Input) (fs : list (string * Value)) (w : World) :
  object_schema names s ->
  schema_of config (input_schema i) = Some s ->
  input_raw i req = VObj fs ->
  shouldBeStrict app (routeStrict config)
    = match strict config with Defined given => Some given | _ => app_strict app end /\
  (forall strict_arg,
     shouldBeStrict app strict_arg
       = match strict_arg with Some given => Some given | None => app_strict app end) /\
  (is_true (route_strictness app config) = true ->
   forall k, is_Some (assoc k fs) -> k ∉ names ->
     exists details w',
       validated_input app config (input_schema i) (input_raw i req) (input_context i) w
         = (Throw (ValidationError ("Validation failed for " ++ input_context i) details), w') /\
       res w' = res w) /\
  (is_true (route_strictness app config) = false ->
   (exists out0, safeParse s passthrough_mode
        (VObj (List.filter (fun kv => bool_decide (fst kv ∈ names)) fs)) = ParseSuccess out0) ->
   exists out,
     validated_input app config (input_schema i) (input_raw i req) (input_context i) w
       = (Return out, w) /\
     forall k, k ∉ names -> get_prop k out = get_prop k (VObj fs)) /\
  (is_true (route_strictness app config) = false ->
   forall q p b,
     validated_input app config query (req_query req) "query" w = (Return q, w) ->
     validated_input app config params (req_params req) "params" w = (Return p, w) ->
     validated_input app config body (req_body req) "body" w = (Return b, w) ->
     run_handler app config req w = handler config (mkContext q p b req) w /\
     forall k, k ∉ names ->
       get_prop k (match i with Query => q | Params => p | Body => b end)
         = get_prop k (VObj fs)).
Proof.
  intros [Hhas Hpass Hstrict Hignore Hretain] Hs Hraw.
  assert (forall w0,
    validated_input app config (input_schema i) (input_raw i req) (input_context i) w0
      = match schema_parse app config s (VObj fs) with
        | Some (ParseSuccess parsed) => (Return parsed, w0)
        | Some (ParseFailure issues) =>
            (Throw (ValidationError ("Validation failed for " ++ input_context i)
                      (map (detail (VObj fs)) issues)),
             warned app (input_context i) (VObj fs) issues (routeStrict config) w0)
        | None => (Throw passthrough_missing, w0)
        end) as Hrun.
  { intros w0. unfold validated_input. rewrite Hs, Hraw. simpl. apply validateData_route. }
  split; [apply shouldBeStrict_route|]. split; [by intros []|].
  split; [|split].
  - intros Hon k Hk Hundeclared.
    destruct (Hstrict fs k Hk Hundeclared) as [issues Hissues].
    rewrite Hrun. unfold schema_parse.
    rewrite (route_mode_strict app config s Hon Hhas). simpl. rewrite Hissues.
    eexists _, _. split; [reflexivity|apply warned_res].
  - intros Hoff [out0 Hout0].
    destruct (Hignore fs out0 Hout0) as [out Hout].
    exists out. rewrite Hrun. unfold schema_parse.
    rewrite (route_mode_passthrough app config s Hoff Hpass). simpl. rewrite Hout.
    split; [done|]. intros k Hk. by apply Hretain.
  - intros Hoff q p b Hq Hp Hb.
    split; [unfold run_handler, bind; by rewrite Hq, Hp, Hb|].
    assert (forall v,
      validated_input app config (input_schema i) (input_raw i req) (input_context i) w
        = (Return v, w) ->
      safeParse s passthrough_mode (VObj fs) = ParseSuccess v) as Hparse.
    { intros v. rewrite Hrun. unfold schema_parse.
      rewrite (route_mode_passthrough app config s Hoff Hpass). simpl.
      destruct (safeParse s passthrough_mode (VObj fs)); [by intros [= ->]|done]. }
    intros k Hk. destruct i; (apply Hretain; [by apply Hparse|exact Hk]).
Qed.

(** ** The route registry *)

Lemma registerAll_routes calls app :
  getRoutes (registerAll calls app) =
    getRoutes app ++
    map (fun c => entry_of (call_method c) (call_path c) (call_config c)) calls.
Proof.
  revert app. induction calls as [|c calls IH]; intros app; simpl.
  - by rewrite app_nil_r.
  - rewrite IH. unfold getRoutes, registerRoute. simpl. by rewrite <- app_assoc.
Qed.

(** C7.  A registration appends exactly one entry to the registry, holding
    the upper-cased method, the path (the first one of an array), the schema
    and the metadata; the entries already there keep their positions and
    contents; [getRoutes] lists the entries in registration order; and
    registering the same method and path twice leaves two entries. *)
Theorem registry_is_append_only :
  (forall method path config app,
     getRoutes (registerRoute method path config app) =
       getRoutes app ++
       [ {| route_method := toUpperCase method;
            route_path := match path with OnePath p => p | PathArray first _ => first end;
            route_schema := schema config;
            route_metadata := metadata config |} ]) /\
  (forall method path config app,
     List.length (getRoutes (registerRoute method path config app))
       = S (List.length (getRoutes app))) /\
  (forall method path config app index route,
     getRoutes app !! index = Some route ->
     getRoutes (registerRoute method path config app) !! index = Some route) /\
  (forall calls,
     getRoutes (registerAll calls emptyApp) =
       map (fun c => entry_of (call_method c) (call_path c) (call_config c)) calls) /\
  (forall method path config app,
     getRoutes (registerRoute method path config (registerRoute method path config app)) =
       getRoutes app ++ [entry_of method path config; entry_of method path config]).
Proof.
  assert (forall method path config app,
     getRoutes (registerRoute method path config app)
       = getRoutes app ++ [entry_of method path config]) as Hpush by reflexivity.
  split; [|split; [|split; [|split]]].
  - intros method path config app. rewrite Hpush. by destruct path.
  - intros. rewrite Hpush, length_app. simpl. lia.
  - intros method path config app index route Hlookup. rewrite Hpush.
    by apply lookup_app_l_Some.
  - intros calls. by rewrite registerAll_routes.
  - intros. rewrite !Hpush. by rewrite <- app_assoc.
Qed.

(** ** The path key *)

Lemma replace_params_slash (r : string) :
  replace_params false (String slash r) = String slash (replace_params false r).
Proof. reflexivity. Qed.

Lemma replace_params_plain (seg rest : string) :
  no_char colon seg = true ->
  replace_params false (seg ++ rest)%string = (seg ++ replace_params false rest)%string.
Proof.
  induction seg as [|c seg IH]; [done|].
  intros [Hc Hseg]%andb_prop. apply negb_true_iff in Hc.
  rewrite !append_cons. simpl. rewrite Hc. by rewrite IH.
Qed.

Lemma replace_params_in_match (name rest : string) :
  no_char slash name = true ->
  segment_end rest ->
  replace_params true (name ++ rest)%string
    = (name ++ "}" ++ replace_params false rest)%string.
Proof.
  intros Hname Hrest. induction name as [|c name IH].
  - destruct Hrest as [->|[r ->]]; reflexivity.
  - simpl in Hname. apply andb_prop in Hname as [Hc Hname].
    apply negb_true_iff in Hc. rewrite !append_cons. simpl. rewrite Hc. by rewrite IH.
Qed.

Lemma replace_params_segment (seg rest : string) :
  is_segment seg = true ->
  segment_end rest ->
  replace_params false (seg ++ rest)%string
    = (brace seg ++ replace_params false rest)%string.
Proof.
  unfold is_segment. intros [Hslash Hshape]%andb_prop Hrest.
  destruct (no_char colon seg) eqn:Hcolon.
  - rewrite (replace_params_plain seg rest Hcolon).
    assert (brace seg = seg) as ->; [|done].
    destruct seg as [|c [|d seg]]; try done.
    simpl in Hcolon. apply andb_prop in Hcolon as [Hc _].
    apply negb_true_iff in Hc. unfold brace. by rewrite Hc.
  - simpl in Hshape. destruct seg as [|c [|d name]]; try done.
    apply Ascii.eqb_eq in Hshape as ->.
    assert (no_char slash (String d name) = true) as Hd by exact Hslash.
    pose proof Hd as Hd'. simpl in Hd'. apply andb_prop in Hd' as [Hd' _].
    apply negb_true_iff in Hd'.
    rewrite (append_cons colon). rewrite (append_cons d).
    change (replace_params false (String colon (String d (name ++ rest)%string)))
      with (if Ascii.eqb d slash
            then String colon (replace_params false (String d (name ++ rest)%string))
            else String "{" (replace_params true (String d (name ++ rest)%string))).
    rewrite Hd'. rewrite <- (append_cons d).
    rewrite (replace_params_in_match (String d name) rest Hd Hrest).
    unfold brace. rewrite Ascii.eqb_refl.
    rewrite !append_assoc. reflexivity.
Qed.

Lemma pathKey_segments (segs : list string) :
  Forall (fun seg => is_segment seg = true) segs ->
  pathKey (String.concat "/" segs) = String.concat "/" (map brace segs).
Proof.
  unfold pathKey. induction 1 as [|seg segs Hseg Hsegs IH]; [done|].
  destruct segs as [|seg' segs].
  - simpl. rewrite <- (append_empty_r seg) at 1.
    rewrite (replace_params_segment seg "" Hseg); [|by left].
    apply append_empty_r.
  - change (String.concat "/" (seg :: seg' :: segs))
      with (seg ++ String slash (String.concat "/" (seg' :: segs)))%string.
    rewrite (replace_params_segment seg _ Hseg); [|right; by eexists].
    rewrite replace_params_slash, IH. reflexivity.
Qed.

(** ** Parameters *)

Lemma required_includes_listed (listed : list Value) (name : string) :
  required_includes (VArr listed) name = true <-> In (VStr name) listed.
Proof.
  simpl. rewrite existsb_exists. split.
  - intros (x & Hin & Hx). destruct x; try done.
    apply String.eqb_eq in Hx. by subst.
  - intros Hin. exists (VStr name). split; [done|]. apply String.eqb_refl.
Qed.

Lemma schema_parameters_some (s : ZodSchema) mk fields props :
  zodToJsonSchema s = Some (VObj fields) ->
  assoc "properties" fields = Some (VObj props) ->
  schema_parameters s mk =
    Some (map (fun '(name, sch) => mk (VObj fields) name sch) props).
Proof.
  intros Hjs Hprops. unfold schema_parameters. rewrite Hjs. simpl.
  rewrite Hprops. reflexivity.
Qed.

Lemma schema_parameters_in (s : ZodSchema) mk ps d :
  schema_parameters s mk = Some ps -> In d ps ->
  exists js name sch,
    zodToJsonSchema s = Some js /\ In (name, sch) (properties_of js) /\ d = mk js name sch.
Proof.
  unfold schema_parameters. destruct (zodToJsonSchema s) as [js|]; [|done].
  destruct (truthy js && has_prop "properties" js); [|done].
  intros [= <-] Hin. apply in_map_iff in Hin as ([name sch] & <- & Hin).
  by exists js, name, sch.
Qed.

Lemma operation_parameters_in (rs : RouteSchema) ps d :
  operation_parameters rs = Some ps -> In d ps ->
  (exists q js name sch,
     query rs = Some q /\ zodToJsonSchema q = Some js /\
     In (name, sch) (properties_of js) /\ d = query_parameter js name sch) \/
  (exists p js name sch,
     params rs = Some p /\ zodToJsonSchema p = Some js /\
     In (name, sch) (properties_of js) /\ d = path_parameter js name sch).
Proof.
  unfold operation_parameters. intros Hps Hin.
  assert (forall qs, match query rs with
                     | Some q => schema_parameters q query_parameter
                     | None => None
                     end = Some qs -> In d qs ->
          exists q js name sch,
            query rs = Some q /\ zodToJsonSchema q = Some js /\
            In (name, sch) (properties_of js) /\ d = query_parameter js name sch) as Hquery.
  { intros qs Hqs Hd. destruct (query rs) as [q|]; [|done].
    destruct (schema_parameters_in q _ qs d Hqs Hd) as (js & name & sch & ? & ? & ?).
    by exists q, js, name, sch. }
  destruct (match query rs with
            | Some q => schema_parameters q query_parameter
            | None => None
            end) as [qs|] eqn:Hq;
    (destruct (params rs) as [p|]; [destruct (schema_parameters p path_parameter) as [pps|] eqn:Hp|]);
    simplify_eq; simpl in Hin;
    try (left; by eapply Hquery);
    try apply in_app_or in Hin as [Hin|Hin];
    try (left; by eapply Hquery);
    try done;
    right; destruct (schema_parameters_in p _ pps d Hp Hin) as (js & name & sch & ? & ? & ?);
    by exists p, js, name, sch.
Qed.

Lemma operation_parameters_query (rs : RouteSchema) q fields props name sch :
  query rs = Some q ->
  zodToJsonSchema q = Some (VObj fields) ->
  assoc "properties" fields = Some (VObj props) ->
  In (name, sch) props ->
  exists ps, operation_parameters rs = Some ps /\
             In (query_parameter (VObj fields) name sch) ps.
Proof.
  intros Hq Hjs Hprops Hin. unfold operation_parameters. rewrite Hq.
  rewrite (schema_parameters_some q query_parameter fields props Hjs Hprops).
  assert (In (query_parameter (VObj fields) name sch)
            (map (fun '(name, sch) => query_parameter (VObj fields) name sch) props)) as Hd.
  { apply in_map_iff. by exists (name, sch). }
  destruct (params rs) as [p|]; [|by eexists].
  destruct (schema_parameters p path_parameter) as [pps|]; eexists; (split; [done|]).
  - simpl. apply in_or_app. by left.
  - done.
Qed.

Lemma operation_parameters_path (rs : RouteSchema) p fields props name sch :
  params rs = Some p ->
  zodToJsonSchema p = Some (VObj fields) ->
  assoc "properties" fields = Some (VObj props) ->
  In (name, sch) props ->
  exists ps, operation_parameters rs = Some ps /\
             In (path_parameter (VObj fields) name sch) ps.
Proof.
  intros Hp Hjs Hprops Hin. unfold operation_parameters. rewrite Hp.
  rewrite (schema_parameters_some p path_parameter fields props Hjs Hprops).
  eexists. split; [done|]. apply in_or_app. right.
  apply in_map_iff. by exists (name, sch).
Qed.

(** ** The [paths] object *)

Lemma process_route_stored (route : Route) (rs : RouteSchema) (index : nat)
    (paths : gmap string (gmap string Operation)) :
  route_schema route = Some rs ->
  exists ops,
    process_route route index paths !! pathKey (route_path route) = Some ops /\
    ops !! toLowerCase (route_method route) = Some (build_operation route rs index).
Proof.
  intros Hrs. unfold process_route. rewrite Hrs.
  eexists. split; [apply lookup_insert_eq|apply lookup_insert_eq].
Qed.

Lemma process_route_documented all route index paths :
  all !! index = Some route ->
  documented_from all paths ->
  documented_from all (process_route route index paths).
Proof.
  intros Hat Hinv. unfold process_route.
  destruct (route_schema route) as [rs|] eqn:Hrs; [|exact Hinv].
  intros key ops. rewrite lookup_insert.
  case_decide as Hkey.
  - intros [= <-]. subst key. split; [by exists index, route, rs|].
    intros method op. rewrite lookup_insert. case_decide as Hm.
    + intros [= <-]. by exists index, route, rs.
    + destruct (paths !! pathKey (route_path route)) as [old|] eqn:Hold; simpl.
      * intros Hop. by apply (Hinv _ _ Hold).
      * by rewrite lookup_empty.
  - apply Hinv.
Qed.

Lemma process_routes_documented all rs index paths :
  (forall j r, rs !! j = Some r -> all !! (index + j) = Some r) ->
  documented_from all paths ->
  documented_from all (process_routes rs index paths).
Proof.
  revert index paths. induction rs as [|r rs IH]; intros index paths Hat Hinv; [done|].
  simpl. apply IH.
  - intros j r' Hj. replace (S index + j) with (index + S j) by lia. by apply Hat.
  - apply process_route_documented; [|done].
    rewrite <- (Nat.add_0_r index). by apply Hat.
Qed.

Lemma process_routes_schemaless rs index paths :
  Forall (fun r => route_schema r = None) rs ->
  process_routes rs index paths = paths.
Proof.
  intros Hrs. revert index paths.
  induction Hrs as [|r rs Hr _ IH]; intros index paths; [done|].
  simpl. rewrite IH. unfold process_route. by rewrite Hr.
Qed.

(** ** Claims about the generated document *)

(** C8.  In the operation built for a route: every top-level property of the
    converted query schema is a parameter with [in: "query"], required
    exactly when its name is listed under [required]; every top-level
    property of the converted params schema is a parameter with [in: "path"]
    and [required: true]; there are no other parameters.  The operation is
    stored under the route's path key, in which every segment [:name] of the
    path is written [{name}]. *)
Theorem parameters_and_path_key (route : Route) (rs : RouteSchema) (index : nat) :
  (forall q fields props name sch,
     query rs = Some q ->
     zodToJsonSchema q = Some (VObj fields) ->
     assoc "properties" fields = Some (VObj props) ->
     In (name, sch) props ->
     exists ps,
       op_parameters (build_operation route rs index) = Some ps /\
       In {| param_name := name; param_in := "query";
             param_required := required_includes (required_of (VObj fields)) name;
             param_schema := sch |} ps) /\
  (forall fields name,
     match assoc "required" fields with
     | Some (VArr listed) =>
         required_includes (required_of (VObj fields)) name = true <-> In (VStr name) listed
     | _ => required_includes (required_of (VObj fields)) name = false
     end) /\
  (forall p fields props name sch,
     params rs = Some p ->
     zodToJsonSchema p = Some (VObj fields) ->
     assoc "properties" fields = Some (VObj props) ->
     In (name, sch) props ->
     exists ps,
       op_parameters (build_operation route rs index) = Some ps /\
       In {| param_name := name; param_in := "path"; param_required := true;
             param_schema := sch |} ps) /\
  (forall ps d,
     op_parameters (build_operation route rs index) = Some ps -> In d ps ->
     (param_in d = "query" /\
      exists q js,
        query rs = Some q /\ zodToJsonSchema q = Some js /\
        In (param_name d, param_schema d) (properties_of js) /\
        param_required d = required_includes (required_of js) (param_name d)) \/
     (param_in d = "path" /\ param_required d = true /\
      exists p js,
        params rs = Some p /\ zodToJsonSchema p = Some js /\
        In (param_name d, param_schema d) (properties_of js))) /\
  (forall paths,
     route_schema route = Some rs ->
     exists ops,
       process_route route index paths !! pathKey (route_path route) = Some ops /\
       ops !! toLowerCase (route_method route) = Some (build_operation route rs index)) /\
  (forall segments,
     Forall (fun segment => is_segment segment = true) segments ->
     pathKey (String.concat "/" segments) = String.concat "/" (map brace segments)).
Proof.
  split; [|split; [|split; [|split; [|split]]]].
  - intros q fields props name sch. apply operation_parameters_query.
  - intros fields name. unfold required_of, get_prop.
    destruct (assoc "required" fields) as [[| |flag|n|text|listed|]|]; simpl; try done.
    + by destruct flag.
    + unfold js_or. simpl. by destruct (n =? 0)%Z.
    + unfold js_or. simpl. by destruct (String.eqb text "").
    + apply (required_includes_listed listed name).
  - intros p fields props name sch. apply operation_parameters_path.
  - intros ps d Hps Hd. simpl in Hps.
    destruct (operation_parameters_in rs ps d Hps Hd)
      as [(q & js & name & sch & Hq & Hjs & Hin & ->)|(p & js & name & sch & Hp & Hjs & Hin & ->)].
    + left. split; [done|]. by exists q, js.
    + right. split; [done|]. split; [done|]. by exists p, js.
  - intros paths. apply process_route_stored.
  - apply pathKey_segments.
Qed.

(** C9.  A route registered without a schema leaves the document as it is;
    so every path key and every operation of the generated document comes
    from a route that has a schema, and a registry of schema-less routes
    yields an empty [paths] object. *)
Theorem schemaless_routes_are_not_documented :
  (forall route index paths,
     route_schema route = None -> process_route route index paths = paths) /\
  (forall app options key ops,
     paths (generateOpenApiSpec app options) !! key = Some ops ->
     (exists index route rs,
        getRoutes app !! index = Some route /\ route_schema route = Some rs /\
        key = pathKey (route_path route)) /\
     (forall method op, ops !! method = Some op ->
        exists index route rs,
          getRoutes app !! index = Some route /\ route_schema route = Some rs /\
          key = pathKey (route_path route) /\
          method = toLowerCase (route_method route) /\
          op = build_operation route rs index)) /\
  (forall app options,
     Forall (fun route => route_schema route = None) (getRoutes app) ->
     paths (generateOpenApiSpec app options) = ∅).
Proof.
  split; [|split].
  - intros route index paths Hnone. unfold process_route. by rewrite Hnone.
  - intros app options key ops. simpl.
    apply (process_routes_documented (getRoutes app) (getRoutes app) 0 ∅); [done|].
    intros key' ops'. by rewrite lookup_empty.
  - intros app options Hall. simpl. by apply process_routes_schemaless.
Qed.

(** ** Concrete runs *)

Module Runs.
Import ZodObject Samples.

(** Outside development a response that fails its schema goes out as it
    is, with status 200: a run of the route [responds_user] whose handler
    returns a user without [email]. *)
Lemma production_sends_unvalidated_response :
  schema_parse (validating_app production)
      (schema_route responds_user (returns missing_email)) UserSchema missing_email
    = Some (ParseFailure email_required) /\
  createValidatedHandler production (validating_app production)
      (schema_route responds_user (returns missing_email)) no_input fresh_world
    = (Return tt, answered missing_email 200) /\
  ~ response_failure_always_500.
Proof.
  split; [by vm_compute|]. split; [by vm_compute|].
  intros Hclaim.
  destruct (Hclaim production (validating_app production)
              (schema_route responds_user (returns missing_email)) no_input fresh_world
              empty_object empty_object empty_object missing_email fresh_world
              {[ "200" := mkResponseConfig (Some UserSchema) (Some "User found") ]}
              (mkResponseConfig (Some UserSchema) (Some "User found"))
              UserSchema email_required)
    as (w' & Hrun & Hwritten); try by vm_compute.
  vm_compute in Hrun. injection Hrun as <-. vm_compute in Hwritten. discriminate.
Qed.

Lemma response_validation_failure_by_environment_witness :
  exists w',
    createValidatedHandler development (validating_app development)
        (schema_route responds_user (returns missing_email)) no_input fresh_world
      = (Return tt, w') /\
    written (res w') =
      [ mkWritten
          (VObj [ ("error", VStr "Response validation failed");
                  ("message", VStr "Validation failed for response (200)");
                  ("details",
                   VArr [ VObj [ ("path", VStr "email"); ("message", VStr "Required");
                                 ("value", missing_email) ] ]) ])
          500 [("Content-Type", "application/json")] ] /\
    statusCode (res w') = Some 500 /\
    console w' = [].
Proof.
  destruct (response_validation_failure_by_environment development
              (validating_app development)
              (schema_route responds_user (returns missing_email)) no_input fresh_world
              empty_object empty_object empty_object missing_email fresh_world
              {[ "200" := mkResponseConfig (Some UserSchema) (Some "User found") ]}
              (mkResponseConfig (Some UserSchema) (Some "User found"))
              UserSchema email_required)
    as (w' & Hrun & Hconsole & Hdevelopment & _); try by vm_compute.
  exists w'. split; [exact Hrun|]. split; [exact (proj1 (Hdevelopment eq_refl))|].
  split; [exact (proj2 (Hdevelopment eq_refl))|exact Hconsole].
Defined.

(** Scenario E: the handler sends the response itself and returns nothing. *)
Lemma no_write_after_headers_sent_witness :
  exists w',
    createValidatedHandler development lenient_app (plain_route sends_directly)
        no_input fresh_world = (Return tt, w') /\
    List.length (written (res w')) = 1.
Proof.
  destruct (no_write_after_headers_sent development lenient_app
              (plain_route sends_directly) no_input fresh_world
              (Return VUndefined)
              (snd (sends_directly (mkContext empty_object empty_object empty_object no_input)
                      fresh_world)) eq_refl)
    as (w' & Hrun & Hsent & _ & _).
  exists w'. split; [exact Hrun|].
  destruct (Hsent eq_refl) as [Hres _]. by rewrite Hres.
Defined.

(** A body [["x"]] under the schema [z.array(z.number())]: the schema
    rejects it, and the answer is a 500, not a 400. *)
Lemma unrunnable_input_schema_is_500_witness :
  safeParse ZodArray.numbers passthrough_mode (VArr [VStr "x"])
    = ParseFailure [mkIssue [Index 0] "Expected number, received string"] /\
  exists w',
    createValidatedHandler development lenient_app (schema_route numbers_body echo_body)
        (mkRequest VUndefined VUndefined (VArr [VStr "x"])) fresh_world = (Return tt, w') /\
    written (res w') =
      [ mkWritten
          (VObj [ ("error", VStr "Internal Server Error");
                  ("message", VStr "schema.passthrough is not a function") ])
          500 [("Content-Type", "application/json")] ] /\
    statusCode (res w') = Some 500 /\
    console w' = [].
Proof.
  split; [reflexivity|].
  apply (unrunnable_input_schema_is_500 development lenient_app
           (schema_route numbers_body echo_body)
           (mkRequest VUndefined VUndefined (VArr [VStr "x"])) fresh_world
           Body ZodArray.numbers).
  - reflexivity.
  - intros j Hj. exists empty_object.
    destruct j; [reflexivity|reflexivity|].
    exfalso. apply list_elem_of_In in Hj. simpl in Hj.
    destruct Hj as [Hj|[Hj|[]]]; discriminate Hj.
  - reflexivity.
  - reflexivity.
  - by left.
Defined.

(** Scenario D: the handler throws [Error("boom")]. *)
Lemma handler_exception_is_500_witness :
  exists w',
    createValidatedHandler development lenient_app
        (plain_route (throws (JsError "boom"))) no_input fresh_world = (Return tt, w') /\
    written (res w') =
      [ mkWritten
          (VObj [ ("error", VStr "Internal Server Error"); ("message", VStr "boom") ])
          500 [("Content-Type", "application/json")] ] /\
    statusCode (res w') = Some 500.
Proof.
  apply (handler_exception_is_500 development lenient_app
           (plain_route (throws (JsError "boom"))) no_input fresh_world
           empty_object empty_object empty_object (JsError "boom") fresh_world);
    try reflexivity.
  intros m d. discriminate.
Defined.

(** A handler that throws its own [ValidationError]. *)
Lemma validation_error_classified_by_message_witness :
  exists w',
    createValidatedHandler development lenient_app
        (plain_route (throws (ValidationError "Out of stock" []))) no_input fresh_world
      = (Return tt, w') /\
    written (res w') =
      [ mkWritten
          (VObj [ ("error", VStr "Validation failed"); ("message", VStr "Out of stock");
                  ("details", VArr []) ])
          400 [("Content-Type", "application/json")] ] /\
    statusCode (res w') = Some 400.
Proof.
  apply (proj2 (validation_error_classified_by_message development lenient_app
                  (plain_route (throws (ValidationError "Out of stock" []))) no_input
                  fresh_world "Out of stock" [] fresh_world eq_refl)
           empty_object empty_object empty_object); try reflexivity.
  by apply includes_false_spec.
Defined.

(** Scenario B: an extra field with strictness off reaches the handler; here
    the application is strict and the route says [strict: false]. *)
Lemma strictness_selects_the_mode_witness :
  exists out,
    validated_input strict_app (with_strict false (schema_route body_only echo_body))
        body john_extra "body" fresh_world
      = (Return out, fresh_world) /\
    get_prop "extraField" out = VStr "x".
Proof.
  destruct (strictness_selects_the_mode strict_app
              (with_strict false (schema_route body_only echo_body))
              ["name"; "email"] UserSchema
              (mkRequest VUndefined VUndefined john_extra) Body
              [ ("name", VStr "John"); ("email", VStr "john@example.com");
                ("extraField", VStr "x") ]
              fresh_world (ZodObjectFacts.object_is_object_schema UserShape)
              eq_refl eq_refl)
    as (_ & _ & _ & Hoff & _).
  destruct (Hoff eq_refl) as (out & Hrun & Hkeep).
  - exists john. by vm_compute.
  - exists out. split; [exact Hrun|].
    rewrite (Hkeep "extraField"); [reflexivity|].
    intros Hin. apply list_elem_of_In in Hin. simpl in Hin.
    destruct Hin as [Hin|[Hin|[]]]; discriminate Hin.
Defined.

(** A body [false] on a route without a body schema: the handler is handed
    an empty object, not [false].  And a handler that returns the number 404:
    [res.send] takes it for the status code and writes no body. *)
Lemma falsy_body_becomes_empty_object :
  createValidatedHandler development lenient_app (plain_route echo_body)
      (mkRequest VUndefined VUndefined (VBool false)) fresh_world
    = (Return tt, answered empty_object 200) /\
  createValidatedHandler development lenient_app (plain_route (returns (VNum 404)))
      no_input fresh_world
    = (Return tt, answered VUndefined 404) /\
  ~ unvalidated_input_as_is.
Proof.
  split; [reflexivity|]. split; [reflexivity|].
  intros Hclaim.
  destruct (Hclaim development lenient_app echo_body
              (mkRequest VUndefined VUndefined (VBool false)) fresh_world
              (VBool false) fresh_world eq_refl eq_refl) as (w' & Hrun & Hwritten).
  vm_compute in Hrun. injection Hrun as <-. vm_compute in Hwritten. discriminate.
Qed.

Lemma success_path_witness :
  exists w',
    createValidatedHandler development lenient_app (schema_route body_only echo_body)
        (mkRequest VUndefined VUndefined john_extra) fresh_world = (Return tt, w') /\
    written (res w') = [ mkWritten john_extra 200 [("Content-Type", "application/json")] ] /\
    console w' = [].
Proof.
  destruct (success_path development lenient_app (schema_route body_only echo_body)
              (mkRequest VUndefined VUndefined john_extra) fresh_world)
    as (_ & _ & Hsuccess).
  destruct (Hsuccess empty_object empty_object john_extra john_extra fresh_world john_extra)
    as (_ & Hrun); try reflexivity.
  exact Hrun.
Defined.

Lemma parameters_and_path_key_witness :
  (exists ps,
     op_parameters (build_operation (mkRoute "GET" "/users/:id" (Some documented) None)
                      documented 0) = Some ps /\
     In (mkParameterObject "page" "query" true (VObj [("type", VStr "number")])) ps) /\
  pathKey "/users/:id" = "/users/{id}".
Proof.
destruct (parameters_and_path_key (mkRoute "GET" "/users/:id" (Some documented) None)
            documented 0) as (Hquery & _ & _ & _ & _ & Hkey).
split.
- apply (Hquery QuerySchema
           [ ("type", VStr "object");
             ("properties", VObj [ ("search", VObj [("type", VStr "string")]);
                                   ("page", VObj [("type", VStr "number")]) ]);
             ("required", VArr [VStr "page"]);
             ("additionalProperties", VBool false) ]
           [ ("search", VObj [("type", VStr "string")]);
             ("page", VObj [("type", VStr "number")]) ]
           "page" (VObj [("type", VStr "number")])); try reflexivity.
  right. by left.
- apply (Hkey [""; "users"; ":id"]). by repeat constructor.
Defined.

Lemma schemaless_routes_are_not_documented_witness :
  paths (generateOpenApiSpec
           (typedApp.get (OnePath "/health") (plain_route (returns empty_object)) emptyApp)
           (mkOpenApiOptions None None None None)) = ∅.
Proof.
destruct schemaless_routes_are_not_documented as (_ & _ & Hempty).
apply Hempty. by repeat constructor.
Defined.

End Runs.


(** * Further properties *)

(** ** The request handler *)

(** X1.  Whatever the request, the route and the handler do, the function
    returned by [createValidatedHandler] completes normally: no exception
    leaves it. *)
Theorem no_exception_escapes
    (env : Env) (app : AppConfig) (config : RouteConfig) (req : Request) (w : World) :
  exists w', createValidatedHandler env app config req w = (Return tt, w').
Proof.
  destruct (try_block env app config req w) as [[[]|e] w1] eqn:Htry.
  - exists w1. by apply completed.
  - rewrite (caught env app config req w e w1 Htry). apply on_error_returns.
Qed.

(** X23.  An input (query, params or body) whose configured schema is run and
    reports issues, the inputs before it having passed, is answered with
    HTTP 400 and the body [{error: "Validation failed", message, details}]:
    [details] has one entry per issue of the validator, in the validator's
    order, each holding the dotted path, the validator's message and the
    whole input that was validated. *)
Theorem input_validation_failure_is_400
    (env : Env) (app : AppConfig) (config : RouteConfig) (req : Request) (w : World)
    (i : Input) (issues : list ZodIssue) :
  headersSent (res w) = false ->
  (forall j, j ∈ earlier i -> exists v, input_yields app config req j v) ->
  input_fails app config req i issues ->
  exists w',
    createValidatedHandler env app config req w = (Return tt, w') /\
    written (res w') = written (res w) ++
      [ reply
          (VObj [ ("error", VStr "Validation failed");
                  ("message", VStr ("Validation failed for " ++ input_context i));
                  ("details",
                   VArr (map (fun issue =>
                                VObj [ ("path", VStr (String.concat "."
                                                       (map path_key_string (issue_path issue))));
                                       ("message", VStr (issue_message issue));
                                       ("value", input_data req i) ])
                             issues)) ])
          400 w ] /\
    statusCode (res w') = Some 400.
Proof.
  intros Hunsent Hearlier Hfail.
  pose proof (run_handler_input_fails app config req i issues w Hearlier Hfail) as Hrun.
  pose proof (try_block_run env app config req w _ _ Hrun) as Htry. simpl in Htry.
  rewrite (caught env app config req w _ _ Htry).
  set (w1 := warned app (input_context i) (input_data req i) issues (routeStrict config) w).
  assert (res w1 = res w) as Hres by apply warned_res.
  assert (headersSent (res w1) = false) as Hunsent1 by (by rewrite Hres).
  rewrite (on_error_validation _ _ w1 Hunsent1).
  assert (includes ("Validation failed for " ++ input_context i) "response (" = false) as ->
    by (by destruct i; vm_compute).
  eexists. split; [reflexivity|].
  destruct (sent_json (validation_failed_body
                         ("Validation failed for " ++ input_context i)
                         (map (detail (input_data req i)) issues)) 400 w1 Hunsent1)
    as (Hw & Hs & _); [done|done|].
  rewrite Hw, Hs. unfold reply. by rewrite Hres.
Qed.

(** X2.  When an input's schema is run and reports issues the business
    handler is not run: the outcome is the same for every handler.  The
    world that results is the initial one with the 400 answer written and,
    when [logValidationErrors] is on, one [console.warn] entry added; with it
    off the console is untouched. *)
Theorem failed_input_skips_handler
    (env : Env) (app : AppConfig) (config : RouteConfig) (req : Request) (w : World)
    (i : Input) (issues : list ZodIssue) :
  headersSent (res w) = false ->
  (forall j, j ∈ earlier i -> exists v, input_yields app config req j v) ->
  input_fails app config req i issues ->
  let answer :=
    validation_failed_body ("Validation failed for " ++ input_context i)
      (map (detail (input_data req i)) issues) in
  let w' :=
    sent answer 400
      (warned app (input_context i) (input_data req i) issues (routeStrict config) w) in
  (forall h, createValidatedHandler env app (with_handler config h) req w = (Return tt, w')) /\
  written (res w') = written (res w) ++ [reply answer 400 w] /\
  console w' = console w ++
    (if is_true (app_logValidationErrors app)
     then [ console_warn ("🚨 Validation failed for " ++ input_context i ++ ":")
              (VObj [ ("data", input_data req i);
                      ("errors", VArr (map (detail (input_data req i)) issues));
                      ("strict", bool_value (route_strictness app config)) ]) ]
     else []).
Proof.
  intros Hunsent Hearlier Hfail answer w'.
  set (w1 := warned app (input_context i) (input_data req i) issues (routeStrict config) w)
    in *.
  assert (res w1 = res w) as Hres by apply warned_res.
  assert (headersSent (res w1) = false) as Hunsent1 by (by rewrite Hres).
  destruct (sent_json answer 400 w1 Hunsent1) as (Hw & _ & _ & Hco); [done|done|].
  split; [|split].
  - intros h.
    pose proof (run_handler_input_fails app (with_handler config h) req i issues w
                  Hearlier Hfail) as Hrun.
    pose proof (try_block_run env app (with_handler config h) req w _ _ Hrun) as Htry.
    simpl in Htry. rewrite (caught env app _ req w _ _ Htry).
    change (routeStrict (with_handler config h)) with (routeStrict config). fold w1.
    rewrite (on_error_validation _ _ w1 Hunsent1).
    assert (includes ("Validation failed for " ++ input_context i) "response (" = false) as ->
      by (by destruct i; vm_compute).
    reflexivity.
  - unfold w'. rewrite Hw. unfold reply. by rewrite Hres.
  - unfold w'. rewrite Hco. unfold w1, warned. rewrite shouldBeStrict_route.
    destruct (is_true (app_logValidationErrors app)); simpl; [done|].
    by rewrite app_nil_r.
Qed.

(** X3.  A response that its schema, run on it, rejects is logged only when
    [logValidationErrors] is on: then the console receives the warning of
    [validateData] followed by the error of [validateResponse], in every
    environment; with the option off it receives nothing.  The adapter logs
    nothing else, and the answer is written after the logging: the 500 in
    development, and otherwise the data, when it is an object or an array
    and the status code is one the server accepts. *)
Theorem response_failure_logging
    (env : Env) (app : AppConfig) (config : RouteConfig) (req : Request) (w : World)
    (q p b result : Value) (w1 : World) (rs : ZodSchema) (issues : list ZodIssue) :
  validated_input app config query (req_query req) "query" w = (Return q, w) ->
  validated_input app config params (req_params req) "params" w = (Return p, w) ->
  validated_input app config body (req_body req) "body" w = (Return b, w) ->
  handler config (mkContext q p b req) w = (Return result, w1) ->
  headersSent (res w1) = false ->
  responseSchema app config = Some rs ->
  schema_parse app config rs (response_data result) = Some (ParseFailure issues) ->
  let logged := response_warned app (response_data result) issues (routeStrict config) w1 in
  res logged = res w1 /\
  console logged = console w1 ++
    (if is_true (app_logValidationErrors app)
     then [ validation_warning app "response (200)" (response_data result) issues
              (routeStrict config);
            response_validation_error (response_data result) ]
     else []) /\
  exists w',
    createValidatedHandler env app config req w = (Return tt, w') /\
    console w' = console logged /\
    (is_development env = true ->
     w' = sent (response_validation_failed_body "Validation failed for response (200)"
                  (map (detail (response_data result)) issues)) 500 logged) /\
    (is_development env = false ->
     is_json (response_data result) = true ->
     status_accepted (res w1) = true ->
     w' = sent (response_data result) (status_or_200 (res w1)) logged).
Proof.
  intros Hq Hp Hb Hh Hunsent Hrs Hfail logged.
  assert (run_handler app config req w = (Return result, w1)) as Hrun.
  { unfold run_handler, bind. by rewrite Hq, Hp, Hb. }
  split; [apply response_warned_res|]. split.
  - unfold logged, response_warned, warned, validation_warning, response_validation_error.
    destruct (is_true (app_logValidationErrors app)); simpl.
    + by rewrite <- app_assoc.
    + by rewrite app_nil_r.
  - exact (failed_response_run env app config req w result w1 rs issues
             Hrun Hunsent Hrs Hfail).
Qed.

(** X24.  A schema under [responses[200]] that the route cannot run (it has
    no [passthrough()], and the route is not strict or the schema has no
    [strict()]) makes response validation fail for every result, valid or
    not.  When logging is on the console receives one error entry holding
    the message of the [TypeError], and the adapter logs nothing else.  In
    development the answer is HTTP 500 "Internal Server Error" with that
    message; in any other environment the data is sent as it is (an object
    or an array, under a status code the server accepts). *)
Theorem unrunnable_response_schema
    (env : Env) (app : AppConfig) (config : RouteConfig) (req : Request) (w : World)
    (q p b result : Value) (w1 : World) (rs : ZodSchema) :
  validated_input app config query (req_query req) "query" w = (Return q, w) ->
  validated_input app config params (req_params req) "params" w = (Return p, w) ->
  validated_input app config body (req_body req) "body" w = (Return b, w) ->
  handler config (mkContext q p b req) w = (Return result, w1) ->
  headersSent (res w1) = false ->
  responseSchema app config = Some rs ->
  has_passthrough rs = false ->
  is_true (route_strictness app config) = false \/ has_strict rs = false ->
  exists w',
    createValidatedHandler env app config req w = (Return tt, w') /\
    console w' = console w1 ++
      (if is_true (app_logValidationErrors app)
       then [ console_error "🚨 Response validation failed for status 200:"
                (VObj [ ("data", response_data result);
                        ("error", VStr "schema.passthrough is not a function") ]) ]
       else []) /\
    (is_development env = true ->
     written (res w') = written (res w1) ++
       [ reply (VObj [ ("error", VStr "Internal Server Error");
                       ("message", VStr "schema.passthrough is not a function") ])
               500 w1 ] /\
     statusCode (res w') = Some 500) /\
    (is_development env = false ->
     is_json (response_data result) = true ->
     status_accepted (res w1) = true ->
     written (res w') = written (res w1) ++
       [ reply (response_data result) (status_or_200 (res w1)) w1 ]).
Proof.
  intros Hq Hp Hb Hh Hunsent Hrs Hpass Hmode.
  assert (run_handler app config req w = (Return result, w1)) as Hrun.
  { unfold run_handler, bind. by rewrite Hq, Hp, Hb. }
  assert (route_mode app config rs = None) as Hnone by (by apply route_mode_none).
  destruct (unrun_response_run env app config req w result w1 rs Hrun Hunsent Hrs Hnone)
    as (w' & Hw' & Hconsole & Hdev & Hother).
  set (logged := response_unrun app (response_data result) w1) in *.
  assert (res logged = res w1) as Hres by apply response_unrun_res.
  assert (headersSent (res logged) = false) as Hunsent2 by (by rewrite Hres).
  exists w'. split; [exact Hw'|]. split; [|split].
  - rewrite Hconsole. unfold logged, response_unrun, response_type_error.
    destruct (is_true (app_logValidationErrors app)); simpl; [done|].
    by rewrite app_nil_r.
  - intros Hdevelopment. rewrite (Hdev Hdevelopment).
    destruct (sent_json (internal_server_error_body "schema.passthrough is not a function")
                500 logged Hunsent2) as (Hw & Hst & _); [done|done|].
    rewrite Hw, Hst. unfold reply. by rewrite Hres.
  - intros Hproduction Hjson Hstatus. rewrite (Hother Hproduction Hjson Hstatus).
    destruct (sent_json (response_data result) (status_or_200 (res w1)) logged
                Hunsent2 Hjson Hstatus) as (Hw & _).
    rewrite Hw. unfold reply. by rewrite Hres.
Qed.

(** ** Substrings and the classification of validation errors *)

(** X4.  With the headers unsent, a caught [ValidationError] is answered as
    a failed response validation (500) exactly when the text "response ("
    occurs somewhere in its message, and as a failed input validation (400)
    exactly when it occurs nowhere. *)
Theorem classification_by_substring (m : string) (d : list Value) (w : World) :
  headersSent (res w) = false ->
  ((exists pre post, m = (pre ++ "response (" ++ post)%string) <->
   on_error (ValidationError m d) w
     = (Return tt, sent (response_validation_failed_body m d) 500 w)) /\
  ((~ exists pre post, m = (pre ++ "response (" ++ post)%string) <->
   on_error (ValidationError m d) w
     = (Return tt, sent (validation_failed_body m d) 400 w)).
Proof.
  intros Hunsent. rewrite (on_error_validation m d w Hunsent).
  rewrite <- (includes_spec m "response (").
  assert (sent (response_validation_failed_body m d) 500 w
          <> sent (validation_failed_body m d) 400 w) as Hdiffer.
  { intros Heq. apply (f_equal (fun w' => statusCode (res w'))) in Heq.
    rewrite !status_sent in Heq by done. discriminate Heq. }
  destruct (includes m "response ("); split; split; try done;
    intros [= Heq]; exfalso; by first [apply Hdiffer|apply Hdiffer; symmetry].
Qed.

(** ** Configuration *)

(** X5.  How the three options of [createTypedApp] come out.  A value given
    in [config] is used in every environment; a missing [strict] or
    [validateResponses] is on exactly in the development environment and a
    missing [logValidationErrors] is on; a key that is present but holds
    [undefined] leaves its option off in every environment. *)
Theorem options_by_environment (env : Env) (config : TypedAppConfig) (route : RouteConfig) :
  let app := resolveAppConfig env config in
  is_true (shouldBeStrict app None)
    = match cfg_strict config with
      | Defined given => given
      | Absent => is_development env
      | Undefined => false
      end /\
  (validateResponse_flag route = Absent ->
   is_true (routeValidateResponse app route)
     = match cfg_validateResponses config with
       | Defined given => given
       | Absent => is_development env
       | Undefined => false
       end) /\
  is_true (app_logValidationErrors app)
    = match cfg_logValidationErrors config with
      | Defined given => given
      | Absent => true
      | Undefined => false
      end.
Proof.
  split; [|split].
  - simpl. unfold shouldBeStrict. simpl. by destruct (cfg_strict config).
  - intros Hflag. unfold routeValidateResponse. rewrite Hflag. simpl.
    by destruct (cfg_validateResponses config).
  - simpl. by destruct (cfg_logValidationErrors config).
Qed.

(** X6.  The application configuration that [createTestApp] produces does
    not depend on the environment: each option is the one passed in, and off
    when the key is missing. *)
Theorem test_app_configuration (env : Env) (config : TypedAppConfig) :
  resolveAppConfig env (createTestApp_config config)
    = {| app_strict := match cfg_strict config with
                       | Defined given => Some given
                       | Absent => Some false
                       | Undefined => None
                       end;
         app_validateResponses := match cfg_validateResponses config with
                                  | Defined given => Some given
                                  | Absent => Some false
                                  | Undefined => None
                                  end;
         app_logValidationErrors := match cfg_logValidationErrors config with
                                    | Defined given => Some given
                                    | Absent => Some false
                                    | Undefined => None
                                    end |}.
Proof.
  unfold resolveAppConfig, createTestApp_config. simpl.
  by destruct (cfg_strict config), (cfg_validateResponses config),
       (cfg_logValidationErrors config).
Qed.

(** ** The registry and the underlying server *)

Lemma registerAll_restanaApp calls app :
  restanaApp (registerAll calls app) = restanaApp app ++ map server_entry calls.
Proof.
  revert app. induction calls as [|c calls IH]; intros app; simpl.
  - by rewrite app_nil_r.
  - rewrite IH. simpl. by rewrite <- app_assoc.
Qed.

(** X7.  After any sequence of registrations the registry and the list of
    routes given to the underlying server correspond entry by entry: the
    server holds the method as written, the whole path argument, the
    middlewares (none when the key is missing) and the route, and the registry
    holds its documentation view (upper-cased method, first path). *)
Theorem registry_mirrors_server (calls : list Registration) :
  let app := registerAll calls emptyApp in
  restanaApp app = map server_entry calls /\
  getRoutes app = map doc_entry (restanaApp app) /\
  List.length (getRoutes app) = List.length calls.
Proof.
  simpl. rewrite registerAll_restanaApp, registerAll_routes. simpl.
  split; [done|]. split.
  - rewrite map_map. by apply map_ext.
  - by rewrite length_map.
Qed.

(** ** Method names *)

Lemma lower_upper_char (c : ascii) : lower_char (upper_char c) = lower_char c.
Proof. destruct c as [[] [] [] [] [] [] [] []]; reflexivity. Qed.

Lemma lower_lower_char (c : ascii) : lower_char (lower_char c) = lower_char c.
Proof. destruct c as [[] [] [] [] [] [] [] []]; reflexivity. Qed.

Lemma upper_lower_char (c : ascii) : upper_char (lower_char c) = upper_char c.
Proof. destruct c as [[] [] [] [] [] [] [] []]; reflexivity. Qed.

(** X8.  The document's method key undoes the upper-casing of the registry:
    lower-casing an upper-cased name is lower-casing the name, so a method
    written in lower case is documented under the name it was registered
    with; and the summary's upper-casing of the key gives back the registry's
    method. *)
Theorem method_case_round_trip (method : string) :
  toLowerCase (toUpperCase method) = toLowerCase method /\
  (toLowerCase method = method -> toLowerCase (toUpperCase method) = method) /\
  toUpperCase (toLowerCase (toUpperCase method)) = toUpperCase method.
Proof.
  assert (toLowerCase (toUpperCase method) = toLowerCase method) as Hlu.
  { unfold toLowerCase, toUpperCase.
    induction method as [|c method IH]; simpl; [done|].
    by rewrite lower_upper_char, IH. }
  split; [exact Hlu|]. split; [intros Hlow; by rewrite Hlu|].
  rewrite Hlu. clear Hlu. unfold toLowerCase, toUpperCase.
  induction method as [|c method IH]; simpl; [done|].
  by rewrite upper_lower_char, IH.
Qed.

(** ** How the document grows *)

Lemma process_routes_app rs1 rs2 index paths :
  process_routes (rs1 ++ rs2) index paths
    = process_routes rs2 (index + List.length rs1) (process_routes rs1 index paths).
Proof.
  revert index paths. induction rs1 as [|r rs1 IH]; intros index paths; simpl.
  - by rewrite Nat.add_0_r.
  - rewrite IH. f_equal. lia.
Qed.

Lemma process_route_frame route index paths key method :
  route_schema route = None \/
    (route_key route, route_method_key route) <> (key, method) ->
  operation_at (process_route route index paths) key method = operation_at paths key method.
Proof.
  intros Hother. unfold process_route.
  destruct (route_schema route) as [rs|]; [|done].
  destruct Hother as [|Hother]; [done|].
  unfold operation_at, route_key, route_method_key in *.
  rewrite lookup_insert. case_decide as Hkey; [|done]. subst key. simpl.
  rewrite lookup_insert_ne by congruence.
  by destruct (paths !! pathKey (route_path route)).
Qed.

Lemma process_route_at route rs index paths :
  route_schema route = Some rs ->
  operation_at (process_route route index paths) (route_key route) (route_method_key route)
    = Some (build_operation route rs index).
Proof.
  intros Hrs. unfold process_route, operation_at, route_key, route_method_key.
  rewrite Hrs, lookup_insert_eq. simpl. apply lookup_insert_eq.
Qed.

Lemma process_route_keeps route index paths key method :
  is_Some (operation_at paths key method) ->
  is_Some (operation_at (process_route route index paths) key method).
Proof.
  intros Hsome.
  destruct (route_schema route) as [rs|] eqn:Hrs.
  - destruct (decide ((route_key route, route_method_key route) = (key, method)))
      as [[= <- <-]|Hne].
    + rewrite (process_route_at route rs index paths Hrs). eauto.
    + rewrite process_route_frame; [done|by right].
  - rewrite process_route_frame; [done|by left].
Qed.

Lemma process_routes_keeps rs index paths key method :
  is_Some (operation_at paths key method) ->
  is_Some (operation_at (process_routes rs index paths) key method).
Proof.
  revert index paths. induction rs as [|r rs IH]; intros index paths Hsome; [done|].
  simpl. apply IH. by apply process_route_keeps.
Qed.

Lemma process_routes_frame rs index paths key method :
  Forall (fun later => is_Some (route_schema later) ->
            (route_key later, route_method_key later) <> (key, method)) rs ->
  operation_at (process_routes rs index paths) key method = operation_at paths key method.
Proof.
  intros Hrs. revert index paths.
  induction Hrs as [|r rs Hr _ IH]; intros index paths; [done|].
  simpl. rewrite IH. apply process_route_frame.
  destruct (route_schema r) as [s|]; [right; apply Hr; eauto|by left].
Qed.

(** X9.  Registering one more route changes the generated document only by
    processing that route, at the index it takes in the registry, on top of
    the document of the routes registered before; so whatever was documented
    stays documented, and operations under another key or method are the
    same. *)
Theorem document_grows_with_registration
    (method : string) (path : PathArg) (config : RouteConfig) (app : TypedApp)
    (options : OpenApiOptions) :
  let before := paths (generateOpenApiSpec app options) in
  let after := paths (generateOpenApiSpec (registerRoute method path config app) options) in
  after = process_route (entry_of method path config) (List.length (getRoutes app)) before /\
  (forall key m, is_Some (operation_at before key m) -> is_Some (operation_at after key m)) /\
  (forall key m,
     (pathKey (pathForDoc path), toLowerCase (toUpperCase method)) <> (key, m) ->
     operation_at after key m = operation_at before key m).
Proof.
  simpl.
  assert (process_routes (routes app ++ [entry_of method path config]) 0 ∅
          = process_route (entry_of method path config) (List.length (getRoutes app))
              (process_routes (getRoutes app) 0 ∅)) as Hgrow.
  { rewrite process_routes_app. reflexivity. }
  unfold getRoutes in *. unfold entry_of in Hgrow. rewrite Hgrow.
  split; [done|]. split.
  - intros key m. apply process_route_keeps.
  - intros key m Hne. apply process_route_frame. by right.
Qed.

(** X10.  Among the routes that have a schema, the last one registered under
    a path key and method is the one the document shows there, built with
    its own index; earlier ones under the same key and method are
    overwritten, and routes under other keys or methods do not interfere. *)
Theorem last_route_wins
    (app : TypedApp) (options : OpenApiOptions) (index : nat) (route : Route)
    (rs : RouteSchema) :
  getRoutes app !! index = Some route ->
  route_schema route = Some rs ->
  (forall j later, index < j -> getRoutes app !! j = Some later ->
     is_Some (route_schema later) ->
     (route_key later, route_method_key later) <> (route_key route, route_method_key route)) ->
  operation_at (paths (generateOpenApiSpec app options))
    (route_key route) (route_method_key route) = Some (build_operation route rs index).
Proof.
  intros Hat Hrs Hlater. simpl.
  destruct (list_elem_of_split_length (getRoutes app) index route Hat)
    as (pre & post & Hsplit & Hlen).
  rewrite Hsplit. rewrite process_routes_app. simpl.
  rewrite process_routes_frame.
  - subst index. by apply process_route_at.
  - apply Forall_forall. intros later Hin Hsome.
    apply list_elem_of_lookup in Hin as [k Hk].
    apply (Hlater (S (index + k)) later); [lia| |done].
    rewrite Hsplit. rewrite lookup_app_r by lia.
    replace (S (index + k) - List.length pre) with (S k) by lia. done.
Qed.

(** X11.  The document has an operation under a key and a method exactly
    when some registered route with a schema has that path key and that
    lower-cased method. *)
Theorem documented_exactly
    (app : TypedApp) (options : OpenApiOptions) (key method : string) :
  is_Some (operation_at (paths (generateOpenApiSpec app options)) key method) <->
  exists route, route ∈ getRoutes app /\ documents route key method.
Proof.
  simpl. split.
  - intros [op Hop]. unfold operation_at in Hop.
    destruct (process_routes (getRoutes app) 0 ∅ !! key) as [ops|] eqn:Hops; [|done].
    simpl in Hop.
    assert (documented_from (getRoutes app) (process_routes (getRoutes app) 0 ∅)) as Hdoc.
    { apply process_routes_documented; [done|]. intros k o. by rewrite lookup_empty. }
    destruct (Hdoc key ops Hops) as [_ Hmethods].
    destruct (Hmethods method op Hop) as (i & route & rs & Hat & Hrs & -> & -> & _).
    exists route. split; [by eapply list_elem_of_lookup_2|].
    split; [by rewrite Hrs|done].
  - intros (route & Hin & [rs Hrs] & <- & <-).
    apply list_elem_of_lookup in Hin as [i Hat].
    destruct (list_elem_of_split_length (getRoutes app) i route Hat)
      as (pre & post & Hsplit & Hlen).
    rewrite Hsplit, process_routes_app. simpl.
    apply process_routes_keeps.
    rewrite (process_route_at route rs _ _ Hrs). eauto.
Qed.

(** ** Responses, parameters and path keys of an operation *)

(** X12.  The responses of an operation follow the route's [responses]
    object code by code: a declared code is described by its description, or
    by "Response <code>" when that is missing or empty, with the converted
    schema as content when there is one and it converts.  The default
    [200: Success] appears only when the route has no [responses] object at
    all: an empty [responses] object gives an operation without responses. *)
Theorem responses_follow_declaration (rs : RouteSchema) (code : string) :
  (forall declared, responses rs = Some declared ->
     operation_responses rs !! code =
       (fun c => {| ro_description :=
                      match resp_description c with
                      | Some text => if String.eqb text "" then "Response " ++ code else text
                      | None => "Response " ++ code
                      end;
                    ro_json_schema := s ← resp_schema c; zodToJsonSchema s |})
       <$> declared !! code) /\
  (responses rs = Some ∅ -> operation_responses rs = ∅) /\
  (responses rs = None ->
   operation_responses rs = {[ "200" := {| ro_description := "Success";
                                           ro_json_schema := None |} ]}).
Proof.
  split; [|split].
  - intros declared Hdecl. unfold operation_responses. rewrite Hdecl.
    rewrite map_lookup_imap. destruct (declared !! code) as [c|]; [|done].
    simpl. f_equal. unfold response_object, str_or.
    by destruct (resp_schema c).
  - intros Hdecl. unfold operation_responses. rewrite Hdecl.
    apply map_eq. intros k. by rewrite map_lookup_imap, !lookup_empty.
  - intros Hdecl. unfold operation_responses. by rewrite Hdecl.
Qed.

(** X13.  When the query and the params schema both convert to a schema
    with [properties], the parameters of the operation are the query
    properties in their order followed by the path properties in their
    order, nothing merged or dropped; a route schema with neither [query] nor
    [params] gives an operation without a [parameters] key. *)
Theorem query_parameters_precede_path_parameters (rs : RouteSchema) :
  (forall q p qfields pfields qprops pprops,
     query rs = Some q -> params rs = Some p ->
     zodToJsonSchema q = Some (VObj qfields) ->
     zodToJsonSchema p = Some (VObj pfields) ->
     assoc "properties" qfields = Some (VObj qprops) ->
     assoc "properties" pfields = Some (VObj pprops) ->
     operation_parameters rs =
       Some (map (fun '(name, sch) =>
                    mkParameterObject name "query"
                      (required_includes (required_of (VObj qfields)) name) sch) qprops ++
             map (fun '(name, sch) => mkParameterObject name "path" true sch) pprops)) /\
  (query rs = None -> params rs = None -> operation_parameters rs = None).
Proof.
  split.
  - intros q p qfields pfields qprops pprops Hq Hp Hqjs Hpjs Hqprops Hpprops.
    unfold operation_parameters. rewrite Hq, Hp.
    rewrite (schema_parameters_some q query_parameter qfields qprops Hqjs Hqprops).
    rewrite (schema_parameters_some p path_parameter pfields pprops Hpjs Hpprops).
    reflexivity.
  - intros Hq Hp. unfold operation_parameters. by rewrite Hq, Hp.
Qed.

Lemma replace_params_false_cons (c : ascii) (s : string) :
  replace_params false (String c s) =
    if Ascii.eqb c colon then
      match s with
      | EmptyString => String colon EmptyString
      | String d _ =>
          if Ascii.eqb d slash then String colon (replace_params false s)
          else String "{" (replace_params true s)
      end
    else String c (replace_params false s).
Proof. reflexivity. Qed.

Lemma no_param_cons (c : ascii) (s : string) :
  no_param (String c s) =
    (if Ascii.eqb c colon
     then match s with EmptyString => true | String d _ => Ascii.eqb d slash end
     else true) && no_param s.
Proof. reflexivity. Qed.

Lemma replace_params_no_param (s : string) :
  no_param s = true -> replace_params false s = s.
Proof.
  induction s as [|c s IH]; [done|].
  intros [Hc Hs]%andb_prop. simpl.
  destruct (Ascii.eqb c colon) eqn:Ec.
  - apply Ascii.eqb_eq in Ec as ->.
    destruct s as [|d s']; [done|]. rewrite Hc. by rewrite (IH Hs).
  - by rewrite (IH Hs).
Qed.

(** X14.  The path key is the path itself exactly when no colon of the path
    is followed by a character other than a slash: a path without
    parameters, also one with a colon at its end or just before a slash, is
    documented under its own text, and every path with a parameter is
    documented under a different text. *)
Theorem path_key_is_path_iff_no_parameter (path : string) :
  pathKey path = path <-> no_param path = true.
Proof.
  unfold pathKey. split; [|apply replace_params_no_param].
  induction path as [|c path IH]; [done|].
  rewrite replace_params_false_cons, no_param_cons.
  destruct (Ascii.eqb c colon) eqn:Ec.
  - destruct path as [|d path']; [done|].
    destruct (Ascii.eqb d slash) eqn:Ed.
    + intros [= _ Hrest]. by rewrite (IH Hrest).
    + apply Ascii.eqb_eq in Ec as ->. intros Hbrace. discriminate Hbrace.
  - intros [= Hrest]. by rewrite (IH Hrest).
Qed.

(** ** The generation script *)

Module ScriptFacts.
Import Script.

Lemma assoc_delete_key {A} (k : string) (fs : list (string * A)) :
  assoc k (List.filter (fun kv => negb (String.eqb (fst kv) k)) fs) = None.
Proof.
  induction fs as [|[k' v] fs IH]; [done|]. simpl.
  destruct (String.eqb_spec k' k) as [->|Hne]; simpl; [exact IH|].
  destruct (String.eqb_spec k k'); [by subst|exact IH].
Qed.

Lemma fr_step_keeps (paths : gmap string (gmap string RoutesOperation))
    key method operation k m :
  is_Some (entry_at paths k m) ->
  is_Some (entry_at (<[ key := <[ method := operation ]> (default ∅ (paths !! key)) ]> paths)
             k m).
Proof.
  unfold entry_at. intros Hsome. rewrite lookup_insert. case_decide as Hk; [|done].
  subst k. simpl. rewrite lookup_insert. case_decide; [eauto|].
  by destruct (paths !! key).
Qed.

Lemma fr_keeps routes paths paths' k m :
  generateTypedRoutePathsFromRoutes routes paths = Some paths' ->
  is_Some (entry_at paths k m) -> is_Some (entry_at paths' k m).
Proof.
  revert paths. induction routes as [|route rest IH]; intros paths; simpl.
  - by intros [= <-].
  - destruct (routes_operation route) as [operation|]; [|done]. simpl.
    intros Hrest Hsome. apply (IH _ Hrest). by apply fr_step_keeps.
Qed.

Lemma fr_documents routes paths paths' route :
  generateTypedRoutePathsFromRoutes routes paths = Some paths' ->
  route ∈ routes ->
  is_Some (entry_at paths' (route_key route) (route_method_key route)).
Proof.
  revert paths. induction routes as [|r rest IH]; intros paths; simpl.
  - intros _ Hin. by apply elem_of_nil in Hin.
  - destruct (routes_operation r) as [operation|] eqn:Hop; [|done]. simpl.
    intros Hrest [->|Hin]%elem_of_cons; [|by apply (IH _ Hrest)].
    apply (fr_keeps _ _ _ _ _ Hrest).
    unfold entry_at, route_key, route_method_key.
    rewrite lookup_insert_eq. simpl. rewrite lookup_insert_eq. eauto.
Qed.

(** The operation the second generator builds for a route without a schema. *)
Lemma routes_operation_schemaless route :
  route_schema route = None ->
  exists operation,
    routes_operation route = Some operation /\
    fr_parameters operation = [] /\ fr_requestBody operation = None /\
    fr_responses operation = default_responses.
Proof.
  intros Hnone. unfold routes_operation. rewrite Hnone. simpl. by eexists.
Qed.

Lemma fr_schemaless routes paths :
  Forall (fun route => route_schema route = None) routes ->
  (forall k m operation, entry_at paths k m = Some operation ->
     fr_parameters operation = [] /\ fr_requestBody operation = None /\
     fr_responses operation = default_responses) ->
  exists paths',
    generateTypedRoutePathsFromRoutes routes paths = Some paths' /\
    forall k m operation, entry_at paths' k m = Some operation ->
      fr_parameters operation = [] /\ fr_requestBody operation = None /\
      fr_responses operation = default_responses.
Proof.
  intros Hall. revert paths.
  induction Hall as [|route rest Hnone _ IH]; intros paths Hinv; simpl; [by eexists|].
  destruct (routes_operation_schemaless route Hnone) as (operation & -> & Hdefault).
  simpl. apply IH. intros k m operation'. unfold entry_at.
  rewrite lookup_insert. case_decide as Hk.
  - subst k. simpl. rewrite lookup_insert. case_decide.
    + by intros [= <-].
    + intros Hop. apply (Hinv (pathKey (route_path route)) m). unfold entry_at.
      by destruct (paths !! pathKey (route_path route)).
  - apply Hinv.
Qed.

End ScriptFacts.

(** X15.  [zodToOpenApi] answers [undefined] for a missing schema and the
    placeholder schema when the conversion throws; from a converted object
    it removes the [$schema] property and nothing else. *)
Theorem zodToOpenApi_cleans_the_schema :
  Script.zodToOpenApi None = VUndefined /\
  (forall s, zodToJsonSchema s = None ->
     Script.zodToOpenApi (Some s) =
       VObj [ ("type", VStr "object");
              ("description",
               VStr "Schema conversion failed - please check the source schema") ]) /\
  (forall s fields, zodToJsonSchema s = Some (VObj fields) ->
     has_prop "$schema" (Script.zodToOpenApi (Some s)) = false /\
     forall k, k <> "$schema" ->
       get_prop k (Script.zodToOpenApi (Some s)) = get_prop k (VObj fields)).
Proof.
  split; [done|]. split.
  - intros s Hfail. unfold Script.zodToOpenApi. by rewrite Hfail.
  - intros s fields Hjs. unfold Script.zodToOpenApi. rewrite Hjs. simpl.
    unfold Script.delete_key. split.
    + rewrite ScriptFacts.assoc_delete_key. apply bool_decide_eq_false_2.
      by intros [? ?].
    + intros k Hk. f_equal.
      apply (assoc_filter (fun k' => negb (String.eqb k' "$schema"))).
      apply negb_true_iff. by apply String.eqb_neq.
Qed.

(** X16.  When [generateTypedRoutePathsFromRoutes] returns, every route of
    its list has an operation under its path key and lower-cased method, the
    routes without a schema included; and from routes that all lack a schema
    it returns, every operation having no parameters, no request body and the
    default response [200: Success] with an object schema. *)
Theorem script_documents_every_route (routes : list Route) :
  (forall paths route,
     Script.generateTypedRoutePathsFromRoutes routes ∅ = Some paths ->
     route ∈ routes ->
     is_Some (Script.entry_at paths (route_key route) (route_method_key route))) /\
  (Forall (fun route => route_schema route = None) routes ->
   exists paths,
     Script.generateTypedRoutePathsFromRoutes routes ∅ = Some paths /\
     forall key method operation,
       Script.entry_at paths key method = Some operation ->
       Script.fr_parameters operation = [] /\
       Script.fr_requestBody operation = None /\
       Script.fr_responses operation
         = {[ "200" := {| ro_description := "Success";
                          ro_json_schema := Some (VObj [("type", VStr "object")]) |} ]}).
Proof.
  split.
  - intros paths route Hgen Hin. by apply (ScriptFacts.fr_documents routes ∅).
  - intros Hall. apply ScriptFacts.fr_schemaless; [done|].
    intros k m operation. unfold Script.entry_at. by rewrite lookup_empty.
Qed.

(** X17.  [generateTypedRoutePathsFromRoutes] does not guard its
    conversions: one route whose query, params or body schema fails to
    convert makes the whole generation fail, whatever the other routes are. *)
Theorem script_generation_fails_as_a_whole
    (routes : list Route) (paths : gmap string (gmap string Script.RoutesOperation))
    (route : Route) (rs : RouteSchema) (s : ZodSchema) :
  route ∈ routes ->
  route_schema route = Some rs ->
  query rs = Some s \/ params rs = Some s \/ body rs = Some s ->
  zodToJsonSchema s = None ->
  Script.generateTypedRoutePathsFromRoutes routes paths = None.
Proof.
  intros Hin Hrs Hwhich Hfail.
  assert (Script.routes_operation route = None) as Hop.
  { unfold Script.routes_operation. rewrite Hrs. simpl.
    destruct Hwhich as [Hq|[Hp|Hb]].
    - rewrite Hq. simpl. by rewrite Hfail.
    - rewrite Hp. simpl. rewrite Hfail. simpl.
      by destruct (Script.routes_parameters (query rs) Script.routes_query_parameter).
    - rewrite Hb. simpl. rewrite Hfail. simpl.
      destruct (Script.routes_parameters (query rs) Script.routes_query_parameter);
        [|done]. simpl.
      by destruct (Script.routes_parameters (params rs) Script.routes_path_parameter). }
  revert paths. induction routes as [|r rest IH]; intros paths.
  - by apply elem_of_nil in Hin.
  - simpl. apply elem_of_cons in Hin as [<-|Hin].
    + by rewrite Hop.
    + destruct (Script.routes_operation r); [|done]. simpl. by apply IH.
Qed.

Lemma typed_responses_of (rs : option RouteSchema) :
  Script.typed_responses rs ≠ ∅ /\
  ((s ← rs; responses s) = None \/ (s ← rs; responses s) = Some ∅ ->
   Script.typed_responses rs
     = {[ "200" := {| ro_description := "Success"; ro_json_schema := None |} ]}) /\
  (forall declared, (s ← rs; responses s) = Some declared -> declared ≠ ∅ ->
     forall code,
       Script.typed_responses rs !! code = Script.typed_response code <$> declared !! code).
Proof.
  unfold Script.typed_responses. split; [|split].
  - case_bool_decide as Hempty; [apply map_non_empty_singleton|done].
  - intros [->| ->]; [done|]. by rewrite map_imap_empty.
  - intros declared -> Hne code.
    rewrite bool_decide_eq_false_2.
    + rewrite map_lookup_imap. by destruct (declared !! code).
    + intros Hempty. apply Hne. apply map_empty. intros i.
      apply (f_equal (fun m => m !! i)) in Hempty.
      rewrite map_lookup_imap, lookup_empty in Hempty.
      by destruct (declared !! i).
Qed.

Lemma typed_path_parameters_some (schema : option ZodSchema) :
  is_Some (Script.typed_parameters schema Script.typed_path_parameter).
Proof.
  unfold Script.typed_parameters. destruct schema as [s|]; [|by eexists].
  destruct (_ && _); [|by eexists].
  apply mapM_is_Some_2, Forall_forall. intros [name sch] _.
  unfold compose, Script.typed_path_parameter. by eexists.
Qed.

Lemma typed_query_parameters_none :
  Script.typed_parameters None Script.typed_query_parameter = Some [].
Proof. reflexivity. Qed.

(** X18.  Every operation that [generateTypedRoutePaths] builds has at least
    one response: the responses declared by the route when there are any,
    and [200: Success] otherwise, also when the route declares an empty
    [responses] object. *)
Theorem typed_operations_have_a_response
    (route : Route) (operation : Script.TypedOperation) :
  Script.typed_operation route = Some operation ->
  Script.to_responses operation ≠ ∅ /\
  (match route_schema route with
   | Some rs => responses rs = None \/ responses rs = Some ∅
   | None => True
   end ->
   Script.to_responses operation
     = {[ "200" := {| ro_description := "Success"; ro_json_schema := None |} ]}) /\
  (forall rs declared,
     route_schema route = Some rs -> responses rs = Some declared -> declared ≠ ∅ ->
     forall code,
       Script.to_responses operation !! code
         = Script.typed_response code <$> declared !! code).
Proof.
  unfold Script.typed_operation.
  destruct (Script.typed_parameters _ Script.typed_query_parameter) as [qs|]; [|done].
  destruct (Script.typed_parameters _ Script.typed_path_parameter) as [ps|]; [|done].
  simpl. intros [= <-]. simpl.
  destruct (typed_responses_of (route_schema route)) as (Hne & Hdefault & Hdeclared).
  split; [exact Hne|]. split.
  - intros Hnone. apply Hdefault. destruct (route_schema route); [exact Hnone|by left].
  - intros rs declared Hrs Hdecl. apply Hdeclared. by rewrite Hrs.
Qed.

(** X19.  [generateTypedRoutePaths] survives schemas that fail to convert:
    it returns for every list of routes none of which has a query schema; a
    body schema that fails to convert is documented by the placeholder
    schema; and a query schema that fails to convert contributes no
    parameter. *)
Theorem typed_generation_survives_failed_conversions :
  (forall routes paths,
     Forall (fun route => (s ← route_schema route; query s) = None) routes ->
     is_Some (Script.generateTypedRoutePaths routes paths)) /\
  (forall route rs b operation,
     route_schema route = Some rs -> body rs = Some b -> zodToJsonSchema b = None ->
     Script.typed_operation route = Some operation ->
     Script.to_requestBody operation
       = Some {| rb_required := true;
                 rb_json_schema :=
                   VObj [ ("type", VStr "object");
                          ("description",
                           VStr "Schema conversion failed - please check the source schema") ] |}) /\
  (forall route rs q,
     route_schema route = Some rs -> query rs = Some q -> zodToJsonSchema q = None ->
     params rs = None ->
     exists operation,
       Script.typed_operation route = Some operation /\
       Script.to_parameters operation = []).
Proof.
  split; [|split].
  - intros routes paths Hall. revert paths.
    induction Hall as [|route rest Hq _ IH]; intros paths; simpl; [by eexists|].
    unfold Script.typed_operation. rewrite Hq, typed_query_parameters_none. simpl.
    destruct (typed_path_parameters_some (s ← route_schema route; params s)) as [ps ->].
    simpl. apply IH.
  - intros route rs b operation Hrs Hb Hfail. unfold Script.typed_operation.
    destruct (Script.typed_parameters _ Script.typed_query_parameter) as [qs|]; [|done].
    destruct (Script.typed_parameters _ Script.typed_path_parameter) as [ps|]; [|done].
    simpl. intros [= <-]. simpl. rewrite Hrs. simpl. rewrite Hb. simpl.
    unfold Script.zodToOpenApi. by rewrite Hfail.
  - intros route rs q Hrs Hq Hfail Hp.
    unfold Script.typed_operation, Script.typed_parameters, Script.zodToOpenApi.
    rewrite Hrs. simpl. rewrite Hq, Hp. simpl. rewrite Hfail. simpl. by eexists.
Qed.

(** ** Route-level options *)

(** X20.  The two route-level overrides read a key that holds [undefined]
    differently: for [strict] it counts as not given, and the application's
    strictness applies; for [validateResponse] it counts as given, and
    response validation is off whatever the application says. *)
Theorem route_overrides (app : AppConfig) (config : RouteConfig) :
  shouldBeStrict app (routeStrict config)
    = match strict config with
      | Defined given => Some given
      | Undefined | Absent => app_strict app
      end /\
  routeValidateResponse app config
    = match validateResponse_flag config with
      | Defined given => Some given
      | Undefined => None
      | Absent => app_validateResponses app
      end /\
  (validateResponse_flag config = Undefined -> responseSchema app config = None).
Proof.
  split; [|split].
  - unfold shouldBeStrict, routeStrict. by destruct (strict config).
  - unfold routeValidateResponse. by destruct (validateResponse_flag config).
  - intros Hflag. unfold responseSchema, routeValidateResponse. by rewrite Hflag.
Qed.

(** X21.  The strictness of a route applies to its response as well.  For
    an object schema under [responses[200]] and a handler that returns an
    object with the headers unsent: with strictness on, in development, a
    field the schema does not declare makes the answer a 500 "Response
    validation failed"; with strictness off, the validated response, an
    object or an array under a status code the server accepts, is written
    with every undeclared field unchanged. *)
Theorem strictness_applies_to_responses
    (env : Env) (app : AppConfig) (config : RouteConfig) (req : Request) (w : World)
    (q p b : Value) (fs : list (string * Value)) (w1 : World)
    (names : list string) (rs : ZodSchema) :
  object_schema names rs ->
  validated_input app config query (req_query req) "query" w = (Return q, w) ->
  validated_input app config params (req_params req) "params" w = (Return p, w) ->
  validated_input app config body (req_body req) "body" w = (Return b, w) ->
  handler config (mkContext q p b req) w = (Return (VObj fs), w1) ->
  headersSent (res w1) = false ->
  responseSchema app config = Some rs ->
  (is_true (route_strictness app config) = true ->
   is_development env = true ->
   forall k, is_Some (assoc k fs) -> k ∉ names ->
     exists w' details,
       createValidatedHandler env app config req w = (Return tt, w') /\
       written (res w') = written (res w1) ++
         [ reply (response_validation_failed_body
                    "Validation failed for response (200)" details) 500 w1 ]) /\
  (is_true (route_strictness app config) = false ->
   forall out, safeParse rs passthrough_mode (VObj fs) = ParseSuccess out ->
     (is_json out = true ->
      status_accepted (res w1) = true ->
      exists w',
        createValidatedHandler env app config req w = (Return tt, w') /\
        written (res w') = written (res w1) ++ [ reply out (status_or_200 (res w1)) w1 ]) /\
     forall k, k ∉ names -> get_prop k out = get_prop k (VObj fs)).
Proof.
  intros [Hhas Hpass Hstrict _ Hretain] Hq Hp Hb Hh Hunsent Hrs.
  assert (run_handler app config req w = (Return (VObj fs), w1)) as Hrun.
  { unfold run_handler, bind. by rewrite Hq, Hp, Hb. }
  split.
  - intros Hon Hdev k Hk Hundeclared.
    destruct (Hstrict fs k Hk Hundeclared) as [issues Hissues].
    assert (schema_parse app config rs (response_data (VObj fs))
            = Some (ParseFailure issues)) as Hfail.
    { unfold schema_parse. rewrite (route_mode_strict app config rs Hon Hhas). simpl.
      by rewrite Hissues. }
    destruct (failed_response_run env app config req w (VObj fs) w1 rs issues
                Hrun Hunsent Hrs Hfail) as (w' & Hw' & _ & Hanswer & _).
    exists w', (map (detail (VObj fs)) issues). split; [exact Hw'|].
    rewrite (Hanswer Hdev), written_sent; [|by rewrite response_warned_res|done|done].
    unfold reply. by rewrite response_warned_res.
  - intros Hoff out Hout.
    split; [|intros k Hk; by apply Hretain].
    intros Hjson Hstatus.
    pose proof (try_block_run env app config req w _ _ Hrun) as Htry. simpl in Htry.
    rewrite (send_result_checked env app config (VObj fs) rs w1 Hunsent Hrs) in Htry.
    unfold schema_parse in Htry.
    rewrite (route_mode_passthrough app config rs Hoff Hpass) in Htry. simpl in Htry.
    rewrite Hout in Htry.
    rewrite (send_json out (status_or_200 (res w1)) w1 Hunsent Hjson Hstatus) in Htry.
    rewrite (completed env app config req w _ Htry).
    eexists. split; [reflexivity|]. by apply written_sent.
Qed.

(** ** The two generators on parameters *)

Lemma mapM_total {A B} (g : A -> B) (l : list A) :
  mapM (fun x => Some (g x)) l = Some (map g l).
Proof. induction l as [|x l IH]; simpl; [done|]. by rewrite IH. Qed.

Lemma default_operation_parameters (rs : RouteSchema) :
  default [] (operation_parameters rs) =
    default [] (q ← query rs; schema_parameters q query_parameter) ++
    default [] (p ← params rs; schema_parameters p path_parameter).
Proof.
  unfold operation_parameters.
  destruct (query rs) as [q|]; simpl;
    (destruct (params rs) as [p|]; simpl;
     [destruct (schema_parameters p path_parameter); simpl|]);
    by rewrite ?app_nil_r.
Qed.

Lemma routes_parameters_plain (s : ZodSchema)
    (mk : Value -> string -> Value -> ParameterObject)
    (mk' : Value -> string -> Value -> option ParameterObject) :
  converts_plainly s ->
  (forall fields name sch,
     match assoc "required" fields with Some (VArr _) | None => True | Some _ => False end ->
     mk' (VObj fields) name sch = Some (mk (VObj fields) name sch)) ->
  Script.routes_parameters (Some s) mk' = Some (default [] (schema_parameters s mk)).
Proof.
  intros (fields & Hjs & Hprops & Hreq) Hmk.
  unfold Script.routes_parameters, schema_parameters. rewrite Hjs. simpl.
  destruct (assoc "properties" fields) as [props|] eqn:Hp; simpl; [|done].
  destruct props as [| | | | | |props]; try done. simpl.
  rewrite <- (mapM_total (fun '(name, sch) => mk (VObj fields) name sch)).
  apply mapM_ext. intros [name sch]. by apply Hmk.
Qed.

(** X22.  On parameters the second generator of the script agrees with
    [generateOpenApiSpec]: for a route whose query and params schemas convert
    to objects with an object under [properties] and an array under
    [required] (each possibly missing), the operation of
    [generateTypedRoutePathsFromRoutes] lists exactly the parameters of the
    documented operation, an empty list standing for a missing
    [parameters] key. *)
Theorem generators_agree_on_parameters
    (route : Route) (rs : RouteSchema) (operation : Script.RoutesOperation) :
  route_schema route = Some rs ->
  (forall s, query rs = Some s \/ params rs = Some s -> converts_plainly s) ->
  Script.routes_operation route = Some operation ->
  forall index,
    Script.fr_parameters operation
      = default [] (op_parameters (build_operation route rs index)).
Proof.
  intros Hrs Hplain Hop index. simpl. rewrite default_operation_parameters.
  unfold Script.routes_operation in Hop. rewrite Hrs in Hop. simpl in Hop.
  assert (Script.routes_parameters (query rs) Script.routes_query_parameter
          = Some (default [] (q ← query rs; schema_parameters q query_parameter))) as Hq.
  { destruct (query rs) as [q|] eqn:Eq; [|done]. simpl.
    apply routes_parameters_plain; [apply Hplain; by left|].
    intros fields name sch Hreq.
    unfold Script.routes_query_parameter, Script.defaulted_required, query_parameter.
    simpl. destruct (assoc "required" fields) as [[| | | | |listed|]|]; try done. }
  assert (Script.routes_parameters (params rs) Script.routes_path_parameter
          = Some (default [] (p ← params rs; schema_parameters p path_parameter))) as Hp.
  { destruct (params rs) as [p|] eqn:Ep; [|done]. simpl.
    apply routes_parameters_plain; [apply Hplain; by right|]. done. }
  rewrite Hq, Hp in Hop. simpl in Hop.
  destruct (match body rs with Some _ => _ | None => _ end); [|done]. simpl in Hop.
  destruct (Script.routes_responses (Some rs)); [|done]. simpl in Hop.
  by injection Hop as <-.
Qed.

(** ** More concrete runs *)

Module MoreRuns.
Import ZodObject Samples MoreSamples.

(** Scenario C: an extra field under strict validation. *)
Lemma input_validation_failure_is_400_witness :
  exists w',
    createValidatedHandler development strict_app (schema_route body_only echo_body)
        (mkRequest VUndefined VUndefined john_extra) fresh_world = (Return tt, w') /\
    written (res w') =
      [ mkWritten
          (VObj [ ("error", VStr "Validation failed");
                  ("message", VStr "Validation failed for body");
                  ("details",
                   VArr [ VObj [ ("path", VStr "");
                                 ("message",
                                  VStr "Unrecognized key(s) in object: 'extraField'");
                                 ("value", john_extra) ] ]) ])
          400 [("Content-Type", "application/json")] ] /\
    statusCode (res w') = Some 400.
Proof.
  apply (input_validation_failure_is_400 development strict_app
           (schema_route body_only echo_body)
           (mkRequest VUndefined VUndefined john_extra) fresh_world
           Body extra_field_unrecognized).
  - reflexivity.
  - intros j Hj. exists empty_object.
    destruct j; [reflexivity|reflexivity|].
    exfalso. apply list_elem_of_In in Hj. simpl in Hj.
    destruct Hj as [Hj|[Hj|[]]]; discriminate Hj.
  - by vm_compute.
Defined.

Lemma failed_input_skips_handler_witness :
  createValidatedHandler development strict_app
      (with_handler (schema_route body_only echo_body) (throws (JsError "boom")))
      (mkRequest VUndefined VUndefined john_extra) fresh_world
    = (Return tt,
       answered (validation_failed_body "Validation failed for body"
                   (map (detail john_extra) extra_field_unrecognized)) 400).
Proof.
assert (forall j, j ∈ earlier Body ->
          exists v, input_yields strict_app (schema_route body_only echo_body)
                      (mkRequest VUndefined VUndefined john_extra) j v) as Hearlier.
{ intros j Hj. exists empty_object.
  destruct j; [reflexivity|reflexivity|].
  exfalso. apply list_elem_of_In in Hj. simpl in Hj.
  destruct Hj as [Hj|[Hj|[]]]; discriminate Hj. }
exact (proj1 (failed_input_skips_handler development strict_app
                (schema_route body_only echo_body)
                (mkRequest VUndefined VUndefined john_extra) fresh_world
                Body extra_field_unrecognized eq_refl Hearlier eq_refl)
         (throws (JsError "boom"))).
Defined.

(** Outside development, with logging on: the invalid user goes out and the
    console holds the warning and the error. *)
Lemma response_failure_logging_witness :
  exists w',
    createValidatedHandler production logging_app
        (schema_route responds_user (returns missing_email)) no_input fresh_world
      = (Return tt, w') /\
    written (res w') = [ mkWritten missing_email 200 [("Content-Type", "application/json")] ] /\
    console w' =
      [ validation_warning logging_app "response (200)" missing_email email_required None;
        response_validation_error missing_email ].
Proof.
destruct (response_failure_logging production logging_app
            (schema_route responds_user (returns missing_email)) no_input fresh_world
            empty_object empty_object empty_object missing_email fresh_world
            UserSchema email_required eq_refl eq_refl eq_refl eq_refl eq_refl eq_refl eq_refl)
  as (_ & Hlogged & w' & Hrun & Hconsole & _ & Hsent).
exists w'. split; [exact Hrun|]. split.
- rewrite (Hsent eq_refl eq_refl eq_refl). reflexivity.
- rewrite Hconsole. exact Hlogged.
Defined.

(** A valid array answered under the schema [z.array(z.number())], in
    development: the answer is a 500. *)
Lemma unrunnable_response_schema_witness :
  safeParse ZodArray.numbers passthrough_mode (VArr [VNum 1]) = ParseSuccess (VArr [VNum 1]) /\
  exists w',
    createValidatedHandler development (validating_app development)
        (schema_route responds_numbers (returns (VArr [VNum 1]))) no_input fresh_world
      = (Return tt, w') /\
    written (res w') =
      [ mkWritten
          (VObj [ ("error", VStr "Internal Server Error");
                  ("message", VStr "schema.passthrough is not a function") ])
          500 [("Content-Type", "application/json")] ] /\
    statusCode (res w') = Some 500.
Proof.
split; [reflexivity|].
destruct (unrunnable_response_schema development (validating_app development)
            (schema_route responds_numbers (returns (VArr [VNum 1]))) no_input fresh_world
            empty_object empty_object empty_object (VArr [VNum 1]) fresh_world
            ZodArray.numbers eq_refl eq_refl eq_refl eq_refl eq_refl)
  as (w' & Hrun & _ & Hdevelopment & _); [by vm_compute|reflexivity|by left|].
exists w'. split; [exact Hrun|exact (Hdevelopment eq_refl)].
Defined.

Lemma classification_by_substring_witness :
  on_error (ValidationError "Bad response (upstream)" []) fresh_world
    = (Return tt,
       sent (response_validation_failed_body "Bad response (upstream)" []) 500 fresh_world).
Proof.
apply (proj1 (proj1 (classification_by_substring "Bad response (upstream)" []
                       fresh_world eq_refl))).
exists "Bad ", "upstream)". reflexivity.
Defined.

(** Of two registrations of [GET /users/:id], the second is documented. *)
Lemma last_route_wins_witness :
  operation_at (paths (generateOpenApiSpec registered_twice
                         (mkOpenApiOptions None None None None)))
    "/users/{id}" "get"
    = Some (build_operation (users_by_id documented) documented 1).
Proof.
apply (last_route_wins registered_twice (mkOpenApiOptions None None None None) 1
         (users_by_id documented) documented eq_refl eq_refl).
intros j later Hj Hat. exfalso.
destruct j as [|[|j]]; [lia|lia|]. simpl in Hat. discriminate Hat.
Defined.

Lemma script_generation_fails_as_a_whole_witness :
  Script.generateTypedRoutePathsFromRoutes
    [ users_by_id documented; users_by_id unconvertible_query ] ∅ = None.
Proof.
apply (script_generation_fails_as_a_whole _ ∅ (users_by_id unconvertible_query)
         unconvertible_query unconvertible).
- apply elem_of_cons. right. apply elem_of_cons. by left.
- reflexivity.
- by left.
- reflexivity.
Defined.

Lemma typed_operations_have_a_response_witness :
  exists operation,
    Script.typed_operation (users_by_id documented) = Some operation /\
    Script.to_responses operation
      = {[ "200" := {| ro_description := "Success"; ro_json_schema := None |} ]}.
Proof.
destruct (Script.typed_operation (users_by_id documented)) as [operation|] eqn:Hop.
- exists operation. split; [reflexivity|].
  destruct (typed_operations_have_a_response (users_by_id documented) operation Hop)
    as (_ & Hdefault & _).
  apply Hdefault. by left.
- vm_compute in Hop. discriminate Hop.
Defined.

(** A strict route in development whose handler returns an extra field. *)
Lemma strictness_applies_to_responses_witness :
  exists w' details,
    createValidatedHandler development strict_validating_app
        (schema_route responds_user (returns john_extra)) no_input fresh_world
      = (Return tt, w') /\
    written (res w') =
      [ reply (response_validation_failed_body
                 "Validation failed for response (200)" details) 500 fresh_world ].
Proof.
destruct (strictness_applies_to_responses development strict_validating_app
            (schema_route responds_user (returns john_extra)) no_input fresh_world
            empty_object empty_object empty_object
            [ ("name", VStr "John"); ("email", VStr "john@example.com");
              ("extraField", VStr "x") ]
            fresh_world ["name"; "email"] UserSchema
            (ZodObjectFacts.object_is_object_schema UserShape)
            eq_refl eq_refl eq_refl eq_refl eq_refl eq_refl) as [Hstrict _].
apply (Hstrict eq_refl eq_refl "extraField").
- by eexists.
- intros Hin. apply list_elem_of_In in Hin. simpl in Hin.
  destruct Hin as [Hin|[Hin|[]]]; discriminate Hin.
Defined.

Lemma generators_agree_on_parameters_witness :
  exists operation,
    Script.routes_operation (users_by_id documented) = Some operation /\
    Script.fr_parameters operation
      = default [] (op_parameters (build_operation (users_by_id documented) documented 0)).
Proof.
destruct (Script.routes_operation (users_by_id documented)) as [operation|] eqn:Hop.
- exists operation. split; [reflexivity|].
  apply (generators_agree_on_parameters (users_by_id documented) documented operation
           eq_refl); [|exact Hop].
  intros s [Hs|Hs]; injection Hs as <-; eexists; (split; [reflexivity|by split]).
- vm_compute in Hop. discriminate Hop.
Defined.

End MoreRuns.
